(** * PDFCraft.Pro backend: job orchestration, conversion pipeline, rate governor

  A shallow embedding of the orchestration core of the backend
  ([services/pdf_processor.py], [services/libreoffice_processor.py],
  [services/auth_service.py], [models/processing.py]) and the properties
  its specification states about it.

  Layout: the embedding comes first, one module per source file; the
  theorems follow, grouped by component. *)

From Stdlib Require Import ZArith String List Bool Lia DecimalString.
From stdpp Require Import base option list gmap strings.

Local Open Scope string_scope.
Local Open Scope Z_scope.
Local Open Scope list_scope.

(* ===================================================================== *)
(** ** models/processing.py *)
(* ===================================================================== *)

Module Models.

(** [class JobStatus(Enum)] *)
Inductive JobStatus : Set :=
| QUEUED | PROCESSING | COMPLETED | FAILED | CANCELLED.

Global Instance JobStatus_eq_dec : EqDecision JobStatus.
Proof. solve_decision. Defined.

(** [class ProcessingOptions]: the fields the orchestrator reads. The
    remaining fields (quality, watermark, ...) are carried by the Python
    record but never consulted by the code embedded here. *)
Record ProcessingOptions : Set := mkOptions {
  operation : string;
  output_format : option string;
  page_count : option Z;
  require_enterprise_compliance : bool
}.

(** [class ProcessingResult]; [warnings] and [metadata] only ever hold
    their defaults or floating-point ratios and are left out. *)
Record ProcessingResult : Set := mkResult {
  success : bool;
  output_path : option string;
  pages_processed : Z;
  operation_performed : string;
  engine_used : string;
  size_reduction_bytes : option Z
}.

(** [class ProcessingJob]. Times are clock readings in milliseconds. *)
Record ProcessingJob : Set := mkJob {
  id : string;
  filename : string;
  file_path : string;
  options : ProcessingOptions;
  status : JobStatus;
  progress : Z;
  created_at : Z;
  started_at : option Z;
  completed_at : option Z;
  processing_time_ms : option Z;
  file_size_bytes : Z;
  result : option ProcessingResult;
  error : option string
}.

End Models.

(* ===================================================================== *)
(** ** services/pdf_processor.py *)
(* ===================================================================== *)

Module PdfProcessor.
Import Models.

(** [class ProcessingEngine(Enum)] with its [.value]. *)
Inductive ProcessingEngine : Set := MUPDF | PDFIUM.

Definition engine_value (e : ProcessingEngine) : string :=
  match e with MUPDF => "mupdf" | PDFIUM => "pdfium" end.

(** Engine availability, as set by [_initialize_mupdf] and
    [_initialize_pdfium_fallback]. *)
Record Engines : Set := mkEngines {
  mupdf_available : bool;
  pdfium_available : bool
}.

(** [_select_engine]: [inl msg] is [raise Exception(msg)]. *)
Definition _select_engine (self : Engines) (job : ProcessingJob)
  : string + ProcessingEngine :=
  if require_enterprise_compliance (options job) && pdfium_available self
  then inr PDFIUM
  else if mupdf_available self then inr MUPDF
  else if pdfium_available self then inr PDFIUM
  else inl "No PDF processing engine available".

(** [class ProcessingMetrics]; [pages_per_second] is a float nobody
    reads back and is left out, the division that computes it is not
    (see [_process_job]). *)
Record ProcessingMetrics : Set := mkMetrics {
  start_time : Z;
  end_time : option Z;
  m_file_size_bytes : Z;
  m_page_count : Z;
  m_processing_time_ms : option Z;
  m_engine_used : option ProcessingEngine
}.

(** *** Field assignments on the mutable records *)

Definition with_status (v : JobStatus) (j : ProcessingJob) : ProcessingJob :=
  mkJob (id j) (filename j) (file_path j) (options j) v (progress j)
        (created_at j) (started_at j) (completed_at j) (processing_time_ms j)
        (file_size_bytes j) (result j) (error j).
Definition with_progress (v : Z) (j : ProcessingJob) : ProcessingJob :=
  mkJob (id j) (filename j) (file_path j) (options j) (status j) v
        (created_at j) (started_at j) (completed_at j) (processing_time_ms j)
        (file_size_bytes j) (result j) (error j).
Definition with_started_at (v : Z) (j : ProcessingJob) : ProcessingJob :=
  mkJob (id j) (filename j) (file_path j) (options j) (status j) (progress j)
        (created_at j) (Some v) (completed_at j) (processing_time_ms j)
        (file_size_bytes j) (result j) (error j).
Definition with_completed_at (v : Z) (j : ProcessingJob) : ProcessingJob :=
  mkJob (id j) (filename j) (file_path j) (options j) (status j) (progress j)
        (created_at j) (started_at j) (Some v) (processing_time_ms j)
        (file_size_bytes j) (result j) (error j).
Definition with_processing_time_ms (v : option Z) (j : ProcessingJob)
  : ProcessingJob :=
  mkJob (id j) (filename j) (file_path j) (options j) (status j) (progress j)
        (created_at j) (started_at j) (completed_at j) v
        (file_size_bytes j) (result j) (error j).
Definition with_result (v : ProcessingResult) (j : ProcessingJob)
  : ProcessingJob :=
  mkJob (id j) (filename j) (file_path j) (options j) (status j) (progress j)
        (created_at j) (started_at j) (completed_at j) (processing_time_ms j)
        (file_size_bytes j) (Some v) (error j).
Definition with_error (v : string) (j : ProcessingJob) : ProcessingJob :=
  mkJob (id j) (filename j) (file_path j) (options j) (status j) (progress j)
        (created_at j) (started_at j) (completed_at j) (processing_time_ms j)
        (file_size_bytes j) (result j) (Some v).

Definition with_engine_used (e : ProcessingEngine) (m : ProcessingMetrics)
  : ProcessingMetrics :=
  mkMetrics (start_time m) (end_time m) (m_file_size_bytes m) (m_page_count m)
            (m_processing_time_ms m) (Some e).
Definition with_page_count (n : Z) (m : ProcessingMetrics) : ProcessingMetrics :=
  mkMetrics (start_time m) (end_time m) (m_file_size_bytes m) n
            (m_processing_time_ms m) (m_engine_used m).
(** [metrics.end_time = end_time] together with
    [metrics.processing_time_ms = (end_time - metrics.start_time) * 1000],
    the clock being read in milliseconds here. *)
Definition with_end_time (t : Z) (m : ProcessingMetrics) : ProcessingMetrics :=
  mkMetrics (start_time m) (Some t) (m_file_size_bytes m) (m_page_count m)
            (Some (t - start_time m)) (m_engine_used m).

(** *** The task monad

    One [_process_job] coroutine owns one job object and one metrics
    object.  A computation threads both, may raise (the message of the
    exception, [str(e)]), and keeps a log: every assignment to a field of
    the job appends the record as it then stands ([Wrote]); every
    suspension point of the coroutine ([await asyncio.sleep], waiting for
    the semaphore) appends the record another task can observe there
    ([Suspended]). *)

Record pstate : Set := mkState {
  st_job : ProcessingJob;
  st_metrics : ProcessingMetrics
}.

Inductive event : Set :=
| Wrote (j : ProcessingJob)
| Suspended (j : ProcessingJob).

Definition Task (A : Type) : Type :=
  pstate -> list event * pstate * (string + A).

Global Instance task_ret : MRet Task := fun A a s => ([], s, inr a).

Global Instance task_bind : MBind Task := fun A B k c s =>
  match c s with
  | (l1, s1, inl e) => (l1, s1, inl e)
  | (l1, s1, inr a) =>
      match k a s1 with (l2, s2, r) => (l1 ++ l2, s2, r) end
  end.

Definition raise {A} (msg : string) : Task A := fun s => ([], s, inl msg).

(** [try: c except Exception as e: h(str(e))] *)
Definition try_except {A} (c : Task A) (h : string -> Task A) : Task A :=
  fun s =>
    match c s with
    | (l1, s1, inl e) =>
        match h e s1 with (l2, s2, r) => (l1 ++ l2, s2, r) end
    | r => r
    end.

Definition get_job : Task ProcessingJob := fun s => ([], s, inr (st_job s)).
Definition get_metrics : Task ProcessingMetrics :=
  fun s => ([], s, inr (st_metrics s)).

(** [job.<field> = v] *)
Definition assign_job (f : ProcessingJob -> ProcessingJob) : Task unit :=
  fun s =>
    let j := f (st_job s) in
    ([Wrote j], mkState j (st_metrics s), inr tt).

(** [metrics.<field> = v] *)
Definition assign_metrics (f : ProcessingMetrics -> ProcessingMetrics)
  : Task unit :=
  fun s => ([], mkState (st_job s) (f (st_metrics s)), inr tt).

(** [await asyncio.sleep(_)], and any other point where the coroutine
    hands control back to the event loop. *)
Definition suspend : Task unit := fun s => ([Suspended (st_job s)], s, inr tt).

(** An external call that returns a value or raises. *)
Definition external {A} (r : string + A) : Task A :=
  match r with inl e => raise e | inr a => mret a end.
Definition external_unit (r : option string) : Task unit :=
  match r with Some e => raise e | None => mret tt end.

Definition when (b : bool) (c : Task unit) : Task unit :=
  if b then c else mret tt.

(** [for x in xs: body(x)] *)
Fixpoint for_each {A} (xs : list A) (body : A -> Task unit) : Task unit :=
  match xs with
  | [] => mret tt
  | x :: xs' => body x;; for_each xs' body
  end.

(** Python's [x or d] on an optional integer and an optional string. *)
Definition or_int (x : option Z) (d : Z) : Z :=
  match x with
  | Some n => if n =? 0 then d else n
  | None => d
  end.
Definition or_str (x : option string) (d : string) : string :=
  match x with
  | Some "" => d
  | Some s => s
  | None => d
  end.

(** What the world outside the coroutine contributes to one run of
    [_process_job]: the clock readings of [time.time()], the outcome of
    each PyMuPDF call of [_compress_pdf_mupdf] ([inl]/[Some]: the call
    raises with that message), and the float product
    [int(original_size * 0.3)] of [_compress_pdf_fallback]. *)
Record Env : Type := mkEnv {
  clock_started : Z;
  clock_end : Z;
  clock_failed : Z;
  fitz_open : string + Z;
  fitz_save : option string;
  stat_output : string + Z;
  fitz_close : option string;
  int_times_0_3 : Z -> Z
}.

Section Handlers.
Variable temp_dir : string.
Variable self : Engines.
Variable env : Env.

(** [_merge_pdfs] *)
Definition _merge_pdfs (engine : ProcessingEngine) : Task ProcessingResult :=
  suspend;;
  for_each [25; 50; 75; 90; 100] (fun progress =>
    assign_job (with_progress progress);;
    when (progress <? 100) suspend);;
  job ← get_job;
  mret (mkResult true
         (Some (temp_dir +:+ "/merged_" +:+ id job +:+ ".pdf"))
         (or_int (page_count (options job)) 1)
         "merge" (engine_value engine) None).

(** [_split_pdf] *)
Definition _split_pdf (engine : ProcessingEngine) : Task ProcessingResult :=
  job ← get_job;
  let page_count := or_int (page_count (options job)) 10 in
  assign_metrics (with_page_count page_count);;
  for_each (seqZ 0 10) (fun i =>
    assign_job (with_progress ((i + 1) * 10));;
    suspend);;
  mret (mkResult true
         (Some (temp_dir +:+ "/split_" +:+ id job))
         page_count
         "split" (engine_value engine) None).

(** [_compress_pdf_mupdf]; the [try ... except Exception as e] around
    its body re-raises with a prefixed message. *)
Definition _compress_pdf_mupdf : Task ProcessingResult :=
  try_except
    (page_count ← external (fitz_open env);
     assign_metrics (with_page_count page_count);;
     assign_job (with_progress 10);;
     assign_job (with_progress 30);;
     job ← get_job;
     let output_path := temp_dir +:+ "/compressed_" +:+ id job +:+ ".pdf" in
     external_unit (fitz_save env);;
     assign_job (with_progress 80);;
     compressed_size ← external (stat_output env);
     let original_size := file_size_bytes job in
     let size_reduction := original_size - compressed_size in
     assign_job (with_progress 100);;
     external_unit (fitz_close env);;
     mret (mkResult true (Some output_path) page_count
            "compress" "mupdf" (Some size_reduction)))
    (fun e => raise ("MuPDF compression failed: " +:+ e)).

(** [_compress_pdf_fallback] *)
Definition _compress_pdf_fallback (engine : ProcessingEngine)
  : Task ProcessingResult :=
  for_each [20; 40; 60; 80; 95; 100] (fun progress =>
    assign_job (with_progress progress);;
    when (progress <? 100) suspend);;
  job ← get_job;
  let original_size := file_size_bytes job in
  let compressed_size := int_times_0_3 env original_size in
  mret (mkResult true
         (Some (temp_dir +:+ "/compressed_" +:+ id job +:+ ".pdf"))
         (or_int (page_count (options job)) 1)
         "compress" (engine_value engine)
         (Some (original_size - compressed_size))).

(** [_compress_pdf] *)
Definition _compress_pdf (engine : ProcessingEngine) : Task ProcessingResult :=
  match engine with
  | MUPDF =>
      if mupdf_available self then _compress_pdf_mupdf
      else _compress_pdf_fallback engine
  | PDFIUM => _compress_pdf_fallback engine
  end.

(** [_convert_pdf] *)
Definition _convert_pdf (engine : ProcessingEngine) : Task ProcessingResult :=
  suspend;;
  for_each [15; 35; 55; 75; 90; 100] (fun progress =>
    assign_job (with_progress progress);;
    when (progress <? 100) suspend);;
  job ← get_job;
  let output_format := or_str (output_format (options job)) "pdf" in
  mret (mkResult true
         (Some (temp_dir +:+ "/converted_" +:+ id job +:+ "." +:+ output_format))
         (or_int (page_count (options job)) 1)
         "convert" (engine_value engine) None).

(** [_optimize_pdf] *)
Definition _optimize_pdf (engine : ProcessingEngine) : Task ProcessingResult :=
  suspend;;
  for_each [30; 60; 90; 100] (fun progress =>
    assign_job (with_progress progress);;
    when (progress <? 100) suspend);;
  job ← get_job;
  mret (mkResult true
         (Some (temp_dir +:+ "/optimized_" +:+ id job +:+ ".pdf"))
         (or_int (page_count (options job)) 1)
         "optimize" (engine_value engine) None).

(** [_log_performance] reads [self.jobs[job_id]] (present: the caller
    has just fetched it and nothing removes jobs), formats and prints.
    It contains no suspension point and assigns nothing. *)
Definition _log_performance : Task unit := mret tt.

(** The operation dispatch of [_process_job] (lines 142-153). *)
Definition dispatch (op : string) (engine : ProcessingEngine)
  : Task ProcessingResult :=
  if String.eqb op "merge" then _merge_pdfs engine
  else if String.eqb op "split" then _split_pdf engine
  else if String.eqb op "compress" then _compress_pdf engine
  else if String.eqb op "convert" then _convert_pdf engine
  else _optimize_pdf engine.

(** The body of [_process_job] once the job and its metrics have been
    fetched: [try: ... except Exception as e: ...]. *)
Definition process_body : Task unit :=
  try_except
    (assign_job (with_status PROCESSING);;
     assign_job (with_started_at (clock_started env));;
     job ← get_job;
     engine ← external (_select_engine self job);
     assign_metrics (with_engine_used engine);;
     result ← dispatch (operation (options job)) engine;
     let end_time := clock_end env in
     assign_metrics (with_end_time end_time);;
     metrics ← get_metrics;
     when (0 <? m_page_count metrics)
       (if (end_time - start_time metrics) =? 0
        then raise "float division by zero" else mret tt);;
     assign_job (with_status COMPLETED);;
     assign_job (with_completed_at end_time);;
     assign_job (with_processing_time_ms (m_processing_time_ms metrics));;
     assign_job (with_result result);;
     _log_performance)
    (fun e =>
       assign_job (with_status FAILED);;
       assign_job (with_error e);;
       assign_job (with_completed_at (clock_failed env))).

(** [_process_job], the coroutine of one job, on the records it fetches
    from the registries: [async with self.processing_semaphore] is its
    first suspension point (the task made by [create_job] has not run
    yet; it runs on once a slot is free). *)
Definition _process_job : Task unit := suspend;; process_body.

End Handlers.

(** *** The service object *)

(** A [pathlib.Path] as the code reads it: [str(p)] and [p.name]. *)
Record Path : Set := mkPath { path_str : string; path_name : string }.

(** [self]: the two registries, the engine flags, and the coroutines
    handed to [asyncio.create_task] (each is [_process_job(job_id)]). *)
Record Service : Type := mkService {
  jobs : gmap string ProcessingJob;
  metrics : gmap string ProcessingMetrics;
  temp_dir : string;
  engines : Engines;
  tasks : list string
}.

(** [__init__]: [int(os.getenv("MAX_CONCURRENT_JOBS", "10"))], given the
    parsed value of the variable when it is set. *)
Definition max_concurrent_jobs (configured : option nat) : nat :=
  default 10%nat configured.

(** What [create_job] takes from outside: the [uuid.uuid4()] drawn, the
    size of the file when [file_path.exists()], two clock readings. *)
Record CreateEnv : Set := mkCreateEnv {
  uuid4 : string;
  stat_size : option Z;
  now_job : Z;
  now_metrics : Z
}.

(** The records [create_job] builds. *)
Definition new_job (cenv : CreateEnv) (file_path : Path)
           (opts : ProcessingOptions) : ProcessingJob :=
  let file_size := match stat_size cenv with Some n => n | None => 0 end in
  mkJob (uuid4 cenv) (path_name file_path) (path_str file_path) opts
        QUEUED 0 (now_job cenv) None None None file_size None None.

Definition new_metrics (cenv : CreateEnv) : ProcessingMetrics :=
  let file_size := match stat_size cenv with Some n => n | None => 0 end in
  mkMetrics (now_metrics cenv) None file_size 0 None None.

(** [create_job]: stores both records under the new id, hands the
    coroutine to the event loop, returns the id. *)
Definition create_job (self : Service) (cenv : CreateEnv)
           (file_path : Path) (opts : ProcessingOptions) : string * Service :=
  let job_id := uuid4 cenv in
  (job_id,
   mkService (<[job_id := new_job cenv file_path opts]> (jobs self))
             (<[job_id := new_metrics cenv]> (metrics self))
             (temp_dir self) (engines self)
             (tasks self ++ [job_id])).

(** The life of one job, from submission on: the record [create_job]
    stores, then the log of the coroutine it schedules, run on that
    record. *)
Definition job_history (self : Service) (cenv : CreateEnv) (env : Env)
           (file_path : Path) (opts : ProcessingOptions)
  : list event * pstate * (string + unit) :=
  let job := new_job cenv file_path opts in
  let '(log, st, r) :=
    _process_job (temp_dir self) (engines self) env
                 (mkState job (new_metrics cenv)) in
  (Wrote job :: log, st, r).

Definition event_job (e : event) : ProcessingJob :=
  match e with Wrote j | Suspended j => j end.

Definition is_suspension (e : event) : bool :=
  match e with Suspended _ => true | Wrote _ => false end.

Definition is_terminal (s : JobStatus) : bool :=
  match s with COMPLETED | FAILED | CANCELLED => true | _ => false end.

(** The log up to its first suspension point: the record visible
    there and what is still to run; [None] when the coroutine runs to
    its end without suspending. *)
Fixpoint next_suspension (log : list event)
  : option (ProcessingJob * list event) :=
  match log with
  | [] => None
  | Suspended j :: rest => Some (j, rest)
  | Wrote _ :: rest => next_suspension rest
  end.

End PdfProcessor.

(* ===================================================================== *)
(** ** The event loop around [_process_job]: the global gate *)
(* ===================================================================== *)

Module Scheduler.
Import Models PdfProcessor.

(** The service together with the state of its [asyncio.Semaphore] and
    of its coroutines.  [permits] is the semaphore's counter; [started]
    holds the coroutines that have gone past [async with]; [inside]
    holds those that are suspended inside it, each with the rest of its
    run and the state it ends in. *)
Record System : Type := mkSystem {
  service : Service;
  permits : nat;
  started : gset string;
  inside : gmap string (list event * pstate)
}.

Definition initial (temp : string) (eng : Engines) (configured : option nat)
  : System :=
  mkSystem (mkService ∅ ∅ temp eng [])
           (max_concurrent_jobs configured) ∅ ∅.

Definition store_job (job_id : string) (j : ProcessingJob) (self : Service)
  : Service :=
  mkService (<[job_id := j]> (jobs self)) (metrics self)
            (temp_dir self) (engines self) (tasks self).

Definition store_final (job_id : string) (st : pstate) (self : Service)
  : Service :=
  mkService (<[job_id := st_job st]> (jobs self))
            (<[job_id := st_metrics st]> (metrics self))
            (temp_dir self) (engines self) (tasks self).

(** Run coroutine [job_id] on to its next suspension point, or to its
    end, where leaving [async with] gives the slot back. The job object
    is mutated in place, so the registry shows it as it stands whenever
    the coroutine is suspended. *)
Definition run_on (job_id : string) (log : list event) (st : pstate)
           (s : System) : System :=
  match next_suspension log with
  | Some (j, rest) =>
      mkSystem (store_job job_id j (service s)) (permits s) (started s)
               (<[job_id := (rest, st)]> (inside s))
  | None =>
      mkSystem (store_final job_id st (service s)) (S (permits s))
               (started s) (delete job_id (inside s))
  end.

(** One step of the event loop. Any waiting coroutine may be the one
    the semaphore wakes; [uuid.uuid4()] never repeats an id. *)
Inductive step : System -> System -> Prop :=
| step_submit s cenv file_path opts :
    jobs (service s) !! uuid4 cenv = None ->
    step s (mkSystem (create_job (service s) cenv file_path opts).2
                     (permits s) (started s) (inside s))
| step_enter s n job_id job m env :
    job_id ∈ tasks (service s) ->
    job_id ∉ started s ->
    permits s = S n ->
    jobs (service s) !! job_id = Some job ->
    metrics (service s) !! job_id = Some m ->
    step s
      (let '(log, st, _) :=
         process_body (temp_dir (service s)) (engines (service s)) env
                      (mkState job m) in
       run_on job_id log st
              (mkSystem (service s) n ({[job_id]} ∪ started s) (inside s)))
| step_enter_missing s n job_id :
    job_id ∈ tasks (service s) ->
    job_id ∉ started s ->
    permits s = S n ->
    jobs (service s) !! job_id = None
    ∨ metrics (service s) !! job_id = None ->
    step s (mkSystem (service s) (permits s) ({[job_id]} ∪ started s)
                     (inside s))
| step_resume s job_id rest st :
    inside s !! job_id = Some (rest, st) ->
    step s (run_on job_id rest st s).

Definition reachable (temp : string) (eng : Engines)
           (configured : option nat) (s : System) : Prop :=
  rtc step (initial temp eng configured) s.

(** The jobs the registry shows as [PROCESSING]. *)
Definition processing_jobs (s : System) : gmap string ProcessingJob :=
  filter (fun kv => status kv.2 = PROCESSING) (jobs (service s)).

(** What the event loop keeps true of the gate of capacity [c]. *)
Record gate_invariant (c : nat) (s : System) : Prop := mkGateInvariant {
  gate_slots : (permits s + size (inside s))%nat = c;
  gate_started : forall job_id,
    is_Some (inside s !! job_id) -> job_id ∈ started s;
  gate_processing : forall job_id j,
    jobs (service s) !! job_id = Some j ->
    status j = PROCESSING -> is_Some (inside s !! job_id);
  gate_ends : forall job_id rest st,
    inside s !! job_id = Some (rest, st) ->
    status (st_job st) <> PROCESSING
}.

End Scheduler.

(* ===================================================================== *)
(** ** services/libreoffice_processor.py *)
(* ===================================================================== *)

Module LibreOffice.

(** The exception classes the pipeline tells apart, each with its
    message ([str(e)]). *)
Inductive exn : Set :=
| RuntimeError (msg : string)
| FileNotFoundError (msg : string)
| ValueError (msg : string)
| OtherException (msg : string).

Definition str (e : exn) : string :=
  match e with
  | RuntimeError m | FileNotFoundError m | ValueError m
  | OtherException m => m
  end.

(** Python's [needle in hay] on strings. *)
Fixpoint contains (needle hay : string) : bool :=
  String.prefix needle hay
  || match hay with
     | EmptyString => false
     | String _ rest => contains needle rest
     end.

(** [str(n)] for an integer. *)
Definition str_int (n : Z) : string := NilZero.string_of_int (Z.to_int n).

(** [s.lower()] on ASCII text. *)
Definition lower_ascii (c : Ascii.ascii) : Ascii.ascii :=
  let n := Ascii.nat_of_ascii c in
  if ((65 <=? n) && (n <=? 90))%nat then Ascii.ascii_of_nat (n + 32) else c.
Fixpoint lower (s : string) : string :=
  match s with
  | EmptyString => EmptyString
  | String c rest => String (lower_ascii c) (lower rest)
  end.

(** A file on disk: its name, its size, and the member names
    [zipfile.ZipFile(...).namelist()] yields, [None] when opening it as
    an archive raises. *)
Record File : Set := mkFile {
  fname : string;
  fsize : Z;
  zip_members : option (list string)
}.

(** How one run of the external executable ends: it exits (with the
    text of its error stream, which [result.stderr.decode()] is taken to
    decode, and the files it left in the output directory), it exceeds
    the timeout, or [subprocess.run] raises. *)
Inductive ProcessOutcome : Set :=
| Exited (returncode : Z) (stderr : string) (produced : list File)
| TimedOut
| SpawnFailed (reason : string).

(** How the in-process strategy ends: packages missing, rendering the
    pages fails, building or saving the presentation raises, or a
    presentation of that size and content is saved. *)
Inductive AltOutcome : Set :=
| AltDepsMissing (reason : string)
| AltRenderFailed (reason : string)
| AltRaised (e : exn)
| AltSaved (size : Z) (members : option (list string)).

Record World : Set := mkWorld {
  primary : ProcessOutcome;
  alternative : AltOutcome;
  libreoffice_version : string;
  conversion_time : Z
}.

(** The input as [convert_pdf_to_ppt] inspects it. *)
Record InputFile : Set := mkInput {
  in_path : string;
  in_name : string;
  in_exists : bool;
  in_suffix : string;
  in_size : Z
}.

Inductive Strategy : Set := Primary | Alternative.

Record CompletedProcess : Set := mkCompleted {
  cp_returncode : Z;
  cp_stderr : string;
  cp_produced : list File
}.

(** [_run_libreoffice_command] *)
Definition _run_libreoffice_command (timeout : Z) (o : ProcessOutcome)
  : exn + CompletedProcess :=
  match o with
  | Exited rc err files => inr (mkCompleted rc err files)
  | TimedOut =>
      inl (RuntimeError
             ("LibreOffice command timed out after " +:+ str_int timeout +:+ "s"))
  | SpawnFailed e =>
      inl (RuntimeError ("LibreOffice subprocess execution failed: " +:+ e))
  end.

(** The two substrings the code looks for. *)
Definition unsupported_signature (text : string) : bool :=
  contains "no export filter" text
  || contains "platform independent libraries" text.

(** [_convert_with_libreoffice] *)
Definition _convert_with_libreoffice (o : ProcessOutcome)
  : exn + CompletedProcess :=
  match _run_libreoffice_command 30 o with
  | inl e => inl e
  | inr result =>
      let stderr_output := cp_stderr result in
      if negb (cp_returncode result =? 0) then
        inl (RuntimeError
               ("LibreOffice conversion failed (exit code "
                +:+ str_int (cp_returncode result) +:+ "): " +:+ stderr_output))
      else if unsupported_signature stderr_output then
        inl (RuntimeError
               ("LibreOffice PDF-to-PPT conversion not supported: "
                +:+ stderr_output))
      else inr result
  end.

(** [_validate_pptx_file] *)
Definition required_files : list string :=
  ["[Content_Types].xml"; "ppt/presentation.xml"].

Definition _validate_pptx_file (f : File) : bool :=
  if fsize f <? 1024 then false
  else match zip_members f with
       | None => false
       | Some zip_contents =>
           forallb (fun required_file =>
                      existsb (String.eqb required_file) zip_contents)
                   required_files
       end.

(** Writing a file into a directory listing: a file of that name is
    replaced where it stands, a new one is added. *)
Fixpoint write_file (f : File) (dir : list File) : list File :=
  match dir with
  | [] => [f]
  | g :: rest =>
      if String.eqb (fname g) (fname f) then f :: rest
      else g :: write_file f rest
  end.

(** [_convert_pdf_to_pptx_alternative]: the working directory it leaves
    behind, and the path it returns or the exception it raises. *)
Definition _convert_pdf_to_pptx_alternative (a : AltOutcome)
           (output_dir : list File) (job_id : string)
  : list File * (exn + string) :=
  match a with
  | AltDepsMissing e =>
      (output_dir,
       inl (RuntimeError ("Alternative conversion dependencies missing: " +:+ e)))
  | AltRenderFailed e =>
      (output_dir,
       inl (RuntimeError ("PDF to image conversion failed: " +:+ e)))
  | AltRaised e => (output_dir, inl e)
  | AltSaved size members =>
      let output_file := mkFile ("input_" +:+ job_id +:+ ".pptx") size members in
      let dir := write_file output_file output_dir in
      if negb (_validate_pptx_file output_file)
      then (dir, inl (RuntimeError "Generated PPTX file failed validation"))
      else (dir, inr (fname output_file))
  end.

(** The dictionary [convert_pdf_to_ppt] returns. *)
Inductive ConversionResult : Set :=
| Converted (job_id input_file output_file : string)
            (conversion_time_ms input_size_bytes output_size_bytes : Z)
            (within_performance_target : bool) (version : string)
| ConversionFailed (job_id error : string) (conversion_time_ms : Z).

Definition is_success (r : ConversionResult) : bool :=
  match r with Converted _ _ _ _ _ _ _ _ => true | _ => false end.

(** One call of [convert_pdf_to_ppt]: the strategies it invoked, in
    order; what it returned; the file it left at the final location. *)
Record Run : Set := mkRun {
  strategies : list Strategy;
  returned : ConversionResult;
  delivered : option File
}.

(** The conversion step (lines 124-145): the primary strategy, and the
    alternative one when the primary raises a [RuntimeError] whose text
    carries a signature. Yields the strategies invoked, the working
    directory, and the exception that leaves the step, if any. *)
Definition conversion_step (w : World) (staged : list File) (job_id : string)
  : list Strategy * list File * option exn :=
  let dir_after_primary :=
    match primary w with
    | Exited _ _ files => fold_left (fun d f => write_file f d) files staged
    | _ => staged
    end in
  match _convert_with_libreoffice (primary w) with
  | inr _ => ([Primary], dir_after_primary, None)
  | inl (RuntimeError e) =>
      if unsupported_signature e then
        match _convert_pdf_to_pptx_alternative (alternative w)
                                               dir_after_primary job_id with
        | (dir, inr _) => ([Primary; Alternative], dir, None)
        | (dir, inl alt_error) =>
            ([Primary; Alternative], dir,
             Some (RuntimeError
                     ("PDF to PowerPoint conversion failed. LibreOffice reports: "
                      +:+ e +:+ ". Alternative method failed: "
                      +:+ str alt_error)))
        end
      else ([Primary], dir_after_primary, Some (RuntimeError e))
  | inl e => ([Primary], dir_after_primary, Some e)
  end.

(** [job_temp_dir.glob("*.ppt*")] *)
Definition glob_ppt (dir : list File) : list File :=
  filter (fun f => contains ".ppt" (fname f) = true) dir.

Definition failed (job_id : string) (e : exn) (w : World)
           (ran : list Strategy) : Run :=
  mkRun ran
        (ConversionFailed job_id
           ("PDF to PPT conversion failed: " +:+ str e) (conversion_time w))
        None.

(** [convert_pdf_to_ppt], with the job id already resolved. *)
Definition convert_pdf_to_ppt (temp_dir : string) (w : World)
           (pdf : InputFile) (job_id : string) : Run :=
  if negb (in_exists pdf) then
    failed job_id (FileNotFoundError ("PDF file not found: " +:+ in_path pdf))
           w []
  else if negb (String.eqb (lower (in_suffix pdf)) ".pdf") then
    failed job_id
           (ValueError ("Input file must be PDF, got: " +:+ in_suffix pdf)) w []
  else
    let temp_pdf :=
      mkFile ("input_" +:+ job_id +:+ ".pdf") (in_size pdf) None in
    match conversion_step w [temp_pdf] job_id with
    | (ran, _, Some e) => failed job_id e w ran
    | (ran, job_temp_dir, None) =>
        match glob_ppt job_temp_dir with
        | [] =>
            failed job_id
              (RuntimeError
                 "LibreOffice conversion completed but no PPT file was generated. Conversion failed.")
              w ran
        | output_file :: _ =>
            let final_output :=
              temp_dir +:+ "/converted_" +:+ job_id +:+ ".pptx" in
            mkRun ran
              (Converted job_id (in_path pdf) final_output
                 (conversion_time w) (in_size pdf) (fsize output_file)
                 (conversion_time w <=? 6000) (libreoffice_version w))
              (Some (mkFile final_output (fsize output_file)
                            (zip_members output_file)))
        end
    end.

End LibreOffice.

(* ===================================================================== *)
(** ** services/auth_service.py: rate limiting *)
(* ===================================================================== *)

Module RateGovernor.

(** [datetime.utcnow()] as microseconds on the UTC time line (the
    resolution of [datetime]).  The bucket key
    [now.strftime("%Y%m%d%H")] names the hour [now] lies in and is
    modelled by the index of that hour. *)
Definition us_per_second : Z := 1000000.
Definition us_per_hour : Z := 3600 * us_per_second.

Definition hour_key (now : Z) : Z := now / us_per_hour.

(** [now.replace(minute=0, second=0, microsecond=0) + timedelta(hours=1)] *)
Definition next_hour (now : Z) : Z := (hour_key now + 1) * us_per_hour.

(** [int(delta.total_seconds())] for a [timedelta] of [d] microseconds:
    [int] truncates toward zero. *)
Definition int_total_seconds (d : Z) : Z := Z.quot d us_per_second.

(** One hour bucket: [{"count": _, "reset_time": _}]. *)
Record Bucket : Set := mkBucket { count : Z; reset_time : Z }.

(** [class RateLimitInfo] *)
Record RateLimitInfo : Set := mkInfo {
  requests_remaining : Z;
  requests_limit : Z;
  info_reset_time : Z;
  retry_after : option Z
}.

(** [class SecurityEvent], as [_log_security_event] fills it for the
    rate limiter (its random id and its timestamp left out). *)
Record SecurityEvent : Set := mkEvent {
  event_type : string;
  details_identifier : string;
  details_limit : Z
}.

(** The part of [self] the rate limiter touches. *)
Record Auth : Type := mkAuth {
  rate_limits : gmap string (gmap Z Bucket);
  security_events : list SecurityEvent
}.

(** [if identifier not in self.rate_limits: self.rate_limits[identifier] = {}] *)
Definition ensure_identifier (identifier : string)
           (rl : gmap string (gmap Z Bucket)) : gmap string (gmap Z Bucket) :=
  match rl !! identifier with
  | Some _ => rl
  | None => <[identifier := ∅]> rl
  end.

(** [check_rate_limit] *)
Definition check_rate_limit (self : Auth) (now : Z) (identifier : string)
           (limit : Z) : RateLimitInfo * Auth :=
  let rl := ensure_identifier identifier (rate_limits self) in
  let hour_data :=
    default (mkBucket 0 (next_hour now))
            (rl !! identifier ≫= fun per_hour => per_hour !! hour_key now) in
  let requests_remaining := Z.max 0 (limit - count hour_data) in
  let events :=
    if requests_remaining =? 0
    then security_events self
           ++ [mkEvent "rate_limit_exceeded" identifier limit]
    else security_events self in
  (mkInfo requests_remaining limit (reset_time hour_data)
          (if requests_remaining =? 0
           then Some (int_total_seconds (reset_time hour_data - now))
           else None),
   mkAuth rl events).

(** [consume_rate_limit] *)
Definition consume_rate_limit (self : Auth) (now : Z) (identifier : string)
  : Auth :=
  let rl := ensure_identifier identifier (rate_limits self) in
  let per_hour := default ∅ (rl !! identifier) in
  let per_hour :=
    match per_hour !! hour_key now with
    | Some _ => per_hour
    | None => <[hour_key now := mkBucket 0 (next_hour now)]> per_hour
    end in
  let per_hour :=
    alter (fun b => mkBucket (count b + 1) (reset_time b))
          (hour_key now) per_hour in
  mkAuth (<[identifier := per_hour]> rl) (security_events self).

(** The bucket stored for an identifier and an hour, if any. *)
Definition bucket (self : Auth) (identifier : string) (hour : Z)
  : option Bucket :=
  rate_limits self !! identifier ≫= fun per_hour => per_hour !! hour.

(** The count the limiter holds for an identifier in an hour. *)
Definition consumed (self : Auth) (identifier : string) (hour : Z) : Z :=
  from_option count 0 (bucket self identifier hour).

(** [consume_rate_limit] called once at each of the given times. *)
Definition consume_all (self : Auth) (times : list Z) (identifier : string)
  : Auth :=
  fold_left (fun a t => consume_rate_limit a t identifier) times self.

(** A later call on the governor and what it answers. *)
Inductive Call : Set :=
| CheckCall (now : Z) (identifier : string) (limit : Z)
| ConsumeCall (now : Z) (identifier : string).

Definition call (c : Call) (self : Auth) : option RateLimitInfo * Auth :=
  match c with
  | CheckCall now i limit =>
      let '(info, self') := check_rate_limit self now i limit in
      (Some info, self')
  | ConsumeCall now i => (None, consume_rate_limit self now i)
  end.

Fixpoint calls (cs : list Call) (self : Auth)
  : list (option RateLimitInfo) * Auth :=
  match cs with
  | [] => ([], self)
  | c :: cs' =>
      let '(r, self1) := call c self in
      let '(rs, self2) := calls cs' self1 in
      (r :: rs, self2)
  end.

(** Two states of the limiter that hold the same buckets. *)
Definition same_buckets (a b : Auth) : Prop :=
  forall identifier hour, bucket a identifier hour = bucket b identifier hour.

(** The bucket a call works on: the stored one, or a new one. *)
Definition current_bucket (self : Auth) (now : Z) (identifier : string)
  : Bucket :=
  default (mkBucket 0 (next_hour now)) (bucket self identifier (hour_key now)).

End RateGovernor.

(* ===================================================================== *)
(** ** services/pdf_processor.py: the queries *)
(* ===================================================================== *)

Module Registry.
Import Models PdfProcessor.

(** [get_job_status] *)
Definition get_job_status (self : Service) (job_id : string)
  : option ProcessingJob :=
  jobs self !! job_id.

(** [get_job_result]: [job.result if job else None] *)
Definition get_job_result (self : Service) (job_id : string)
  : option ProcessingResult :=
  match jobs self !! job_id with
  | Some job => result job
  | None => None
  end.

End Registry.

(* ===================================================================== *)
(** ** models/auth.py *)
(* ===================================================================== *)

Module AuthModels.

(** [class UserRole], [class PlanType], [class APIKeyScope]: each enum
    in a module of its own, so that its members keep their names. *)
Module UserRole.
Inductive t : Set := ADMIN | ENTERPRISE | BUSINESS | INDIVIDUAL | TRIAL.
End UserRole.

Module PlanType.
Inductive t : Set := FREE | STARTER | BUSINESS | ENTERPRISE | CUSTOM.
End PlanType.

Module APIKeyScope.
Inductive t : Set := READ | WRITE | ADMIN | WEBHOOK.
End APIKeyScope.

(** [class UserCreate] *)
Record UserCreate : Set := mkUserCreate {
  uc_email : string;
  uc_full_name : string;
  uc_company : option string;
  uc_role : UserRole.t;
  uc_plan_type : PlanType.t;
  uc_password : string
}.

(** [class User]. Times are [datetime] values in microseconds, as in
    the rate limiter. *)
Record User : Set := mkUser {
  u_id : string;
  u_email : string;
  u_full_name : string;
  u_company : option string;
  u_role : UserRole.t;
  u_plan_type : PlanType.t;
  u_is_active : bool;
  u_created_at : Z;
  u_updated_at : Z;
  u_last_login : option Z;
  u_email_verified : bool;
  u_monthly_documents_processed : Z;
  u_total_documents_processed : Z;
  u_monthly_limit : Z
}.

(** [class APIKeyCreate] *)
Record APIKeyCreate : Set := mkAPIKeyCreate {
  kc_name : string;
  kc_description : option string;
  kc_scopes : list APIKeyScope.t;
  kc_expires_at : option Z;
  kc_rate_limit_per_hour : Z
}.

(** [class APIKey] *)
Record APIKey : Set := mkAPIKey {
  k_id : string;
  k_user_id : string;
  k_name : string;
  k_description : option string;
  k_key_prefix : string;
  k_scopes : list APIKeyScope.t;
  k_created_at : Z;
  k_expires_at : option Z;
  k_last_used : option Z;
  k_is_active : bool;
  k_requests_count : Z;
  k_rate_limit_per_hour : Z
}.

(** [class APIKeyResponse] *)
Record APIKeyResponse : Set := mkAPIKeyResponse {
  kr_id : string;
  kr_name : string;
  kr_key : string;
  kr_key_prefix : string;
  kr_scopes : list APIKeyScope.t;
  kr_expires_at : option Z;
  kr_rate_limit_per_hour : Z
}.

(** A value of the [details] dictionary of a [SecurityEvent]. *)
Inductive Detail : Set :=
| DStr (s : string)
| DInt (n : Z).

(** [class SecurityEvent], as [_log_security_event] fills it: the random
    id, the constant address and agent and the timestamp are left out. *)
Record SecurityEvent : Set := mkSecurityEvent {
  ev_type : string;
  ev_user_id : option string;
  ev_details : list (string * Detail)
}.

End AuthModels.

(* ===================================================================== *)
(** ** services/auth_service.py: users, API keys, usage *)
(* ===================================================================== *)

Module AuthService.
Import AuthModels.

(** A Python [dict] with string keys, in insertion order: assigning to
    a key that is present replaces the value where it stands. *)
Definition Dict (A : Type) : Type := list (string * A).

Fixpoint dict_get {A} (k : string) (d : Dict A) : option A :=
  match d with
  | [] => None
  | (k', v) :: d' => if String.eqb k' k then Some v else dict_get k d'
  end.

Fixpoint dict_set {A} (k : string) (v : A) (d : Dict A) : Dict A :=
  match d with
  | [] => [(k, v)]
  | (k', v') :: d' =>
      if String.eqb k' k then (k, v) :: d' else (k', v') :: dict_set k v d'
  end.

Definition dict_values {A} (d : Dict A) : list A := snd <$> d.

(** Assigning to a field of the first value that satisfies [p], the
    object [next(v for v in d.values() if p(v))] yields. *)
Fixpoint update_first {A} (p : A -> bool) (f : A -> A) (d : Dict A)
  : Dict A :=
  match d with
  | [] => []
  | (k, v) :: d' =>
      if p v then (k, f v) :: d' else (k, v) :: update_first p f d'
  end.

(** [self]: the four stores of the service. *)
Record Service : Type := mkService {
  users : Dict User;
  api_keys : Dict APIKey;
  rate_limits : gmap string (gmap Z RateGovernor.Bucket);
  security_events : list SecurityEvent
}.

Definition with_users (v : Dict User) (self : Service) : Service :=
  mkService v (api_keys self) (rate_limits self) (security_events self).
Definition with_api_keys (v : Dict APIKey) (self : Service) : Service :=
  mkService (users self) v (rate_limits self) (security_events self).

(** [_log_security_event] *)
Definition _log_security_event (self : Service) (event_type : string)
           (user_id : option string) (details : list (string * Detail))
  : Service :=
  mkService (users self) (api_keys self) (rate_limits self)
            (security_events self
             ++ [mkSecurityEvent event_type user_id details]).

(** The characters of a password, taken to be ASCII: [c.isupper()],
    [c.islower()], [c.isdigit()]. *)
Definition in_codes (lo hi : nat) (c : Ascii.ascii) : bool :=
  let n := Ascii.nat_of_ascii c in ((lo <=? n) && (n <=? hi))%nat.
Definition isupper : Ascii.ascii -> bool := in_codes 65 90.
Definition islower : Ascii.ascii -> bool := in_codes 97 122.
Definition isdigit : Ascii.ascii -> bool := in_codes 48 57.

(** [any(p(c) for c in s)] *)
Fixpoint any_char (p : Ascii.ascii -> bool) (s : string) : bool :=
  match s with
  | EmptyString => false
  | String c rest => p c || any_char p rest
  end.

(** [_validate_password_strength]: [Some msg] is [raise ValueError(msg)]. *)
Definition _validate_password_strength (password : string) : option string :=
  if (String.length password <? 8)%nat
  then Some "Password must be at least 8 characters long"
  else if negb (any_char isupper password)
  then Some "Password must contain at least one uppercase letter"
  else if negb (any_char islower password)
  then Some "Password must contain at least one lowercase letter"
  else if negb (any_char isdigit password)
  then Some "Password must contain at least one number"
  else None.

(** [monthly_limits.get(plan_type, 10)] *)
Definition monthly_limits (plan : PlanType.t) : Z :=
  match plan with
  | PlanType.FREE => 10
  | PlanType.STARTER => 100
  | PlanType.BUSINESS => 1000
  | PlanType.ENTERPRISE => 10000
  | PlanType.CUSTOM => 50000
  end.

(** [_generate_api_key], given the text [secrets.token_urlsafe(32)]
    yields. *)
Definition _generate_api_key (token : string) : string := "pdfsaas_" +:+ token.

(** What [create_api_key] draws from outside. *)
Record KeyEnv : Set := mkKeyEnv {
  token_urlsafe : string;
  key_uuid4 : string;
  key_utcnow : Z
}.

(** What [create_user] draws from outside. *)
Record UserEnv : Set := mkUserEnv {
  user_uuid4 : string;
  user_utcnow : Z;
  default_key_env : KeyEnv
}.

Section Hashed.

(** [_hash_api_key]: the SHA-256 digest of the key, in hexadecimal. *)
Variable _hash_api_key : string -> string.

(** [create_api_key]: [inl msg] is [raise ValueError(msg)]. *)
Definition create_api_key (self : Service) (env : KeyEnv) (user_id : string)
           (key_data : APIKeyCreate) : (string + APIKeyResponse) * Service :=
  match dict_get user_id (users self) with
  | None => (inl "User not found", self)
  | Some user =>
      let api_key := _generate_api_key (token_urlsafe env) in
      let key_id := key_uuid4 env in
      let now := key_utcnow env in
      let api_key_record :=
        mkAPIKey key_id user_id (kc_name key_data) (kc_description key_data)
                 (String.substring 0 8 api_key) (kc_scopes key_data) now
                 (kc_expires_at key_data) None true 0
                 (kc_rate_limit_per_hour key_data) in
      (inr (mkAPIKeyResponse key_id (kc_name key_data) api_key
              (String.substring 0 8 api_key) (kc_scopes key_data)
              (kc_expires_at key_data) (kc_rate_limit_per_hour key_data)),
       with_api_keys
         (dict_set (_hash_api_key api_key) api_key_record (api_keys self))
         self)
  end.

(** [_create_default_api_key] *)
Definition _create_default_api_key (self : Service) (env : KeyEnv)
           (user_id : string) : option string * Service :=
  let default_key :=
    mkAPIKeyCreate "Default API Key" (Some "Auto-generated default key")
                   [APIKeyScope.READ; APIKeyScope.WRITE] None 1000 in
  match create_api_key self env user_id default_key with
  | (inl e, self') => (Some e, self')
  | (inr _, self') => (None, self')
  end.

(** [create_user]: [inl msg] is [raise ValueError(msg)]. *)
Definition create_user (self : Service) (env : UserEnv)
           (user_data : UserCreate) : (string + User) * Service :=
  if existsb (fun u => String.eqb (u_email u) (uc_email user_data))
             (dict_values (users self))
  then (inl "User with this email already exists", self)
  else
    match _validate_password_strength (uc_password user_data) with
    | Some e => (inl e, self)
    | None =>
        let user_id := user_uuid4 env in
        let now := user_utcnow env in
        let user :=
          mkUser user_id (uc_email user_data) (uc_full_name user_data)
                 (uc_company user_data) (uc_role user_data)
                 (uc_plan_type user_data) true now now None false 0 0
                 (monthly_limits (uc_plan_type user_data)) in
        let self1 := with_users (dict_set user_id user (users self)) self in
        match _create_default_api_key self1 (default_key_env env) user_id with
        | (Some e, self2) => (inl e, self2)
        | (None, self2) => (inr user, self2)
        end
    end.

(** [verify_api_key]; [now_expiry] and [now_used] are its two readings
    of [datetime.utcnow()]. *)
Definition verify_api_key (self : Service) (now_expiry now_used : Z)
           (api_key : string) : option APIKey * Service :=
  let key_hash := _hash_api_key api_key in
  match dict_get key_hash (api_keys self) with
  | None =>
      (None,
       _log_security_event self "api_key_invalid" None
         [("key_prefix", DStr (String.substring 0 8 api_key))])
  | Some api_key_record =>
      if negb (k_is_active api_key_record) then
        (None,
         _log_security_event self "api_key_disabled" None
           [("key_id", DStr (k_id api_key_record))])
      else if match k_expires_at api_key_record with
              | Some expires_at => expires_at <? now_expiry
              | None => false
              end then
        (None,
         _log_security_event self "api_key_expired" None
           [("key_id", DStr (k_id api_key_record))])
      else
        let r := api_key_record in
        let updated :=
          mkAPIKey (k_id r) (k_user_id r) (k_name r) (k_description r)
                   (k_key_prefix r) (k_scopes r) (k_created_at r)
                   (k_expires_at r) (Some now_used) (k_is_active r)
                   (k_requests_count r + 1) (k_rate_limit_per_hour r) in
        (Some updated,
         with_api_keys (dict_set key_hash updated (api_keys self)) self)
  end.

End Hashed.

(** [user.last_login = now] *)
Definition with_last_login (now : Z) (u : User) : User :=
  mkUser (u_id u) (u_email u) (u_full_name u) (u_company u)
         (u_role u) (u_plan_type u) (u_is_active u) (u_created_at u)
         (u_updated_at u) (Some now) (u_email_verified u)
         (u_monthly_documents_processed u)
         (u_total_documents_processed u) (u_monthly_limit u).

(** [authenticate_user]; the password is not looked at. *)
Definition authenticate_user (self : Service) (now : Z)
           (email password : string) : option User * Service :=
  match find (fun u => String.eqb (u_email u) email)
             (dict_values (users self)) with
  | None =>
      (None,
       _log_security_event self "login_failed" None
         [("email", DStr email); ("reason", DStr "user_not_found")])
  | Some user =>
      if negb (u_is_active user) then
        (None,
         _log_security_event self "login_failed" (Some (u_id user))
           [("reason", DStr "account_disabled")])
      else
        (Some (with_last_login now user),
         with_users
           (update_first (fun u => String.eqb (u_email u) email)
                         (with_last_login now) (users self))
           self)
  end.

(** [check_rate_limit] and [consume_rate_limit] on the whole service:
    the limiter embedded above, working on [rate_limits] and appending
    the events it logs. *)
Definition limiter_event (e : RateGovernor.SecurityEvent) : SecurityEvent :=
  mkSecurityEvent (RateGovernor.event_type e) None
    [("identifier", DStr (RateGovernor.details_identifier e));
     ("limit", DInt (RateGovernor.details_limit e))].

Definition check_rate_limit (self : Service) (now : Z) (identifier : string)
           (limit : Z) : RateGovernor.RateLimitInfo * Service :=
  let '(info, g) :=
    RateGovernor.check_rate_limit
      (RateGovernor.mkAuth (rate_limits self) []) now identifier limit in
  (info,
   mkService (users self) (api_keys self) (RateGovernor.rate_limits g)
             (security_events self
              ++ (limiter_event <$> RateGovernor.security_events g))).

Definition consume_rate_limit (self : Service) (now : Z)
           (identifier : string) : Service :=
  let g :=
    RateGovernor.consume_rate_limit
      (RateGovernor.mkAuth (rate_limits self) []) now identifier in
  mkService (users self) (api_keys self) (RateGovernor.rate_limits g)
            (security_events self).

(** [track_document_processing] *)
Definition track_document_processing (self : Service) (now : Z)
           (user_id : string) : bool * Service :=
  match dict_get user_id (users self) with
  | None => (false, self)
  | Some user =>
      if u_monthly_limit user <=? u_monthly_documents_processed user then
        (false,
         _log_security_event self "monthly_limit_exceeded" (Some user_id)
           [("limit", DInt (u_monthly_limit user))])
      else
        let u := user in
        let updated :=
          mkUser (u_id u) (u_email u) (u_full_name u) (u_company u)
                 (u_role u) (u_plan_type u) (u_is_active u) (u_created_at u)
                 now (u_last_login u) (u_email_verified u)
                 (u_monthly_documents_processed u + 1)
                 (u_total_documents_processed u + 1) (u_monthly_limit u) in
        (true, with_users (dict_set user_id updated (users self)) self)
  end.

(** [__init__]: the stores of a service just started. *)
Definition empty : Service := mkService [] [] ∅ [].

End AuthService.

(* ===================================================================== *)
(** ** api/routes/auth.py: the API key dependency *)
(* ===================================================================== *)

Module AuthRoutes.
Import AuthModels.

(** The headers of the 429 response, before [str] is applied. *)
Record RateLimitHeaders : Set := mkRateLimitHeaders {
  x_ratelimit_remaining : Z;
  x_ratelimit_limit : Z;
  x_ratelimit_reset : Z;
  retry_after_header : Z
}.

(** [HTTPException(status_code, detail, headers)] *)
Record HTTPException : Set := mkHTTPException {
  status_code : Z;
  detail : string;
  headers : option RateLimitHeaders
}.

(** Python's [s.replace(old, new)] for a non-empty [old]: occurrences
    are found from the left and do not overlap; [skip] counts the
    characters of an occurrence still to pass over. *)
Fixpoint replace_from (old new : string) (skip : nat) (s : string) : string :=
  match s with
  | EmptyString => EmptyString
  | String c rest =>
      match skip with
      | S k => replace_from old new k rest
      | O =>
          if String.prefix old s
          then new +:+ replace_from old new (String.length old - 1) rest
          else String c (replace_from old new 0 rest)
      end
  end.

Definition replace (old new s : string) : string := replace_from old new 0 s.

(** The key the dependency takes from the two headers: [X-API-Key]
    when it is given and not empty, else an [Authorization] header that
    starts with "Bearer pdfsaas_", with every "Bearer " removed. *)
Definition presented_key (x_api_key authorization : option string)
  : option string :=
  match x_api_key with
  | Some (String c k) => Some (String c k)
  | _ =>
      match authorization with
      | Some a =>
          if String.prefix "Bearer pdfsaas_" a
          then Some (replace "Bearer " "" a)
          else None
      | None => None
      end
  end.

(** The four readings of [datetime.utcnow()] one request takes. *)
Record RequestEnv : Set := mkRequestEnv {
  now_expiry : Z;
  now_used : Z;
  now_check : Z;
  now_consume : Z
}.

Section Dependency.

Variable _hash_api_key : string -> string.

(** [int(rate_limit.reset_time.timestamp())] *)
Variable timestamp : Z -> Z.

(** [rate_limit.retry_after or 3600] *)
Definition retry_after_or_3600 (retry_after : option Z) : Z :=
  match retry_after with
  | Some r => if r =? 0 then 3600 else r
  | None => 3600
  end.

(** [get_current_user_from_api_key]: [inl] is the [HTTPException]
    raised. *)
Definition get_current_user_from_api_key (auth_service : AuthService.Service)
           (env : RequestEnv) (x_api_key authorization : option string)
  : (HTTPException + User) * AuthService.Service :=
  match presented_key x_api_key authorization with
  | None | Some EmptyString =>
      (inl (mkHTTPException 401
              "API key required. Use X-API-Key header or Authorization: Bearer <api_key>"
              None),
       auth_service)
  | Some api_key =>
      match AuthService.verify_api_key _hash_api_key auth_service
              (now_expiry env) (now_used env) api_key with
      | (None, s1) =>
          (inl (mkHTTPException 401 "Invalid or expired API key" None), s1)
      | (Some api_key_record, s1) =>
          match AuthService.dict_get (k_user_id api_key_record)
                                     (AuthService.users s1) with
          | None => (inl (mkHTTPException 404 "User not found" None), s1)
          | Some user =>
              if negb (u_is_active user) then
                (inl (mkHTTPException 403 "User account is disabled" None), s1)
              else
                let identifier := "api_key:" +:+ k_id api_key_record in
                let '(rate_limit, s2) :=
                  AuthService.check_rate_limit s1 (now_check env) identifier
                    (k_rate_limit_per_hour api_key_record) in
                if RateGovernor.requests_remaining rate_limit <=? 0 then
                  (inl (mkHTTPException 429 "Rate limit exceeded"
                          (Some (mkRateLimitHeaders
                                   (RateGovernor.requests_remaining rate_limit)
                                   (RateGovernor.requests_limit rate_limit)
                                   (timestamp
                                      (RateGovernor.info_reset_time rate_limit))
                                   (retry_after_or_3600
                                      (RateGovernor.retry_after rate_limit))))),
                   s2)
                else
                  (inr user,
                   AuthService.consume_rate_limit s2 (now_consume env)
                                                  identifier)
          end
      end
  end.

End Dependency.

End AuthRoutes.

(* ===================================================================== *)
(** ** services/file_manager.py *)
(* ===================================================================== *)

Module FileManager.

(** The files the service has written: path and content. *)
Definition Disk : Type := gmap string (list Byte.byte).

(** What [save_upload] takes from outside: [int(time.time())], and
    whether opening or writing the file raises (with which message). *)
Record SaveEnv : Set := mkSaveEnv {
  timestamp : Z;
  write_error : option string
}.

Section Saving.

(** [hashlib.md5(content).hexdigest()] *)
Variable md5_hexdigest : list Byte.byte -> string.

(** [p.name], the final component of a path. *)
Variable final_component : string -> string.

(** [save_upload]: [inl msg] is the exception [open] or [write] raises,
    taken to leave no file behind. *)
Definition save_upload (upload_dir : string) (disk : Disk) (env : SaveEnv)
           (filename : string) (content : list Byte.byte)
  : (string + PdfProcessor.Path) * Disk :=
  let file_hash := String.substring 0 8 (md5_hexdigest content) in
  let safe_filename :=
    LibreOffice.str_int (timestamp env) +:+ "_" +:+ file_hash +:+ "_"
    +:+ filename in
  let file_path := upload_dir +:+ "/" +:+ safe_filename in
  match write_error env with
  | Some e => (inl e, disk)
  | None =>
      (inr (PdfProcessor.mkPath file_path (final_component file_path)),
       <[file_path := content]> disk)
  end.

End Saving.

End FileManager.

(* ===================================================================== *)
(** ** api/routes/processing.py *)
(* ===================================================================== *)

Module ProcessingRoutes.
Import Models PdfProcessor FileManager.

(** Python's [s.endswith(suffix)]. *)
Definition endswith (s suffix : string) : bool :=
  (String.length suffix <=? String.length s)%nat
  && String.eqb
       (String.substring (String.length s - String.length suffix)
                         (String.length suffix) s)
       suffix.

(** [estimate_page_count]: [file_path.stat()] raises when the file is
    not there, and the estimate is then 1. *)
Definition estimate_page_count (disk : Disk) (file_path : Path) : Z :=
  match disk !! path_str file_path with
  | Some content =>
      let file_size := Z.of_nat (length content) in
      let estimated_pages := Z.max 1 (file_size / (100 * 1024)) in
      Z.min estimated_pages 1000
  | None => 1
  end.

(** What [upload_and_process] answers. *)
Inductive UploadResponse : Set :=
| Uploaded (job_id status_endpoint : string)
| HTTPError (status_code : Z) (detail : string).

(** What one upload takes from outside. *)
Record UploadEnv : Set := mkUploadEnv {
  save_env : SaveEnv;
  job_uuid4 : string;
  job_now : Z;
  metrics_now : Z
}.

(** The form fields the job keeps. *)
Record Form : Set := mkForm {
  form_operation : string;
  form_output_format : option string;
  form_require_enterprise_compliance : bool
}.

Section Upload.

Variable md5_hexdigest : list Byte.byte -> string.
Variable final_component : string -> string.
Variable upload_dir : string.

(** [upload_and_process] *)
Definition upload_and_process (disk : Disk) (pdf_processor : Service)
           (env : UploadEnv) (filename : string) (content : list Byte.byte)
           (form : Form) : UploadResponse * Disk * Service :=
  let lowered := LibreOffice.lower filename in
  if negb (endswith lowered ".pdf" || endswith lowered ".docx") then
    (HTTPError 400 "Unsupported file format. Supported formats: PDF, DOCX",
     disk, pdf_processor)
  else
    let max_size := 100 * 1024 * 1024 in
    if max_size <? Z.of_nat (length content) then
      (HTTPError 413
         ("File too large. Maximum size: "
          +:+ LibreOffice.str_int (max_size / (1024 * 1024)) +:+ "MB"),
       disk, pdf_processor)
    else
      match save_upload md5_hexdigest final_component upload_dir disk
                        (save_env env) filename content with
      | (inl e, disk1) =>
          (HTTPError 500 ("Processing failed: " +:+ e), disk1, pdf_processor)
      | (inr temp_path, disk1) =>
          let options :=
            mkOptions (form_operation form) (form_output_format form)
                      (Some (estimate_page_count disk1 temp_path))
                      (form_require_enterprise_compliance form) in
          let cenv :=
            mkCreateEnv (job_uuid4 env)
                        ((fun c => Z.of_nat (length c))
                         <$> disk1 !! path_str temp_path)
                        (job_now env) (metrics_now env) in
          let '(job_id, pdf_processor1) :=
            create_job pdf_processor cenv temp_path options in
          (Uploaded job_id ("/api/processing/status/" +:+ job_id),
           disk1, pdf_processor1)
      end.

End Upload.

End ProcessingRoutes.

(* ===================================================================== *)
(** ** api/routes/conversion.py: the job table *)
(* ===================================================================== *)

Module ConversionRoutes.

(** One entry of [conversion_jobs]; a key the dictionary may lack is an
    optional field. *)
Record Entry : Set := mkEntry {
  e_status : string;
  e_filename : string;
  e_file_size : Z;
  e_upload_hash : string;
  e_verified_size : Z;
  e_integrity_verified : bool;
  e_created_at : Z;
  e_progress : Z;
  e_error : option string;
  e_output_file : option string;
  e_conversion_time : option Z;
  e_within_performance_target : option bool;
  e_output_size_bytes : option Z
}.

Definition Jobs : Type := gmap string Entry.

(** The entry [convert_pdf_to_ppt] (the route) stores for an upload. *)
Definition new_entry (filename : string) (size : Z) (upload_hash : string)
           (now : Z) : Entry :=
  mkEntry "queued" filename size upload_hash size true now 0
          None None None None None.

(** The exceptions that leave a handler here. *)
Inductive Raised : Set :=
| KeyError (key : string)
| HTTPException (status_code : Z) (detail : string).

(** [process_conversion_job] up to its [await]:
    [conversion_jobs[job_id]["status"] = "processing"] and
    [conversion_jobs[job_id]["progress"] = 10]. A missing entry raises
    [KeyError]; the handler of the [try] then looks the entry up again
    and raises the same. *)
Definition begin_conversion (jobs : Jobs) (job_id : string)
  : Raised + Jobs :=
  match jobs !! job_id with
  | None => inl (KeyError job_id)
  | Some e =>
      inr (<[job_id :=
               mkEntry "processing" (e_filename e) (e_file_size e)
                       (e_upload_hash e) (e_verified_size e)
                       (e_integrity_verified e) (e_created_at e) 10
                       (e_error e) (e_output_file e) (e_conversion_time e)
                       (e_within_performance_target e)
                       (e_output_size_bytes e)]> jobs)
  end.

(** [process_conversion_job] from the [await] on, given what
    [libreoffice_processor.convert_pdf_to_ppt] returned and the table
    as it then is. (The [finally] that unlinks the input file works on
    the disk, not on the table.) *)
Definition record_conversion (jobs : Jobs) (job_id : string)
           (result : LibreOffice.ConversionResult) : Raised + Jobs :=
  match jobs !! job_id with
  | None => inl (KeyError job_id)
  | Some e =>
      match result with
      | LibreOffice.Converted _ _ output_file conversion_time _
                              output_size within_target _ =>
          inr (<[job_id :=
                   mkEntry "completed" (e_filename e) (e_file_size e)
                           (e_upload_hash e) (e_verified_size e)
                           (e_integrity_verified e) (e_created_at e) 100
                           (e_error e) (Some output_file)
                           (Some conversion_time) (Some within_target)
                           (Some output_size)]> jobs)
      | LibreOffice.ConversionFailed _ error conversion_time =>
          inr (<[job_id :=
                   mkEntry "failed" (e_filename e) (e_file_size e)
                           (e_upload_hash e) (e_verified_size e)
                           (e_integrity_verified e) (e_created_at e)
                           (e_progress e) (Some error) (e_output_file e)
                           (Some conversion_time)
                           (e_within_performance_target e)
                           (e_output_size_bytes e)]> jobs)
      end
  end.

(** What [get_conversion_status] reports of an entry (the elapsed time
    and the estimate made from it are left out). *)
Record StatusReport : Set := mkStatusReport {
  r_job_id : string;
  r_status : string;
  r_progress : Z;
  r_filename : string;
  r_file_size_bytes : Z;
  r_error : option string;
  r_output_file : option string
}.

(** [get_conversion_status] *)
Definition get_conversion_status (jobs : Jobs) (job_id : string)
  : Raised + StatusReport :=
  match jobs !! job_id with
  | None => inl (HTTPException 404 "Job not found")
  | Some job =>
      inr (mkStatusReport job_id (e_status job) (e_progress job)
             (e_filename job) (e_file_size job) (e_error job)
             (e_output_file job))
  end.

(** [download_converted_file]: the path of the file served. [exists]
    tells which paths are files on disk. *)
Definition download_converted_file (exists_ : string -> bool) (jobs : Jobs)
           (job_id : string) : Raised + string :=
  match jobs !! job_id with
  | None => inl (HTTPException 404 "Job not found")
  | Some job =>
      if negb (String.eqb (e_status job) "completed") then
        inl (HTTPException 400
               ("Job not completed. Current status: " +:+ e_status job))
      else
        match e_output_file job with
        | Some (String c rest) =>
            if exists_ (String c rest) then inr (String c rest)
            else inl (HTTPException 404 "Converted file not found")
        | _ => inl (HTTPException 404 "Converted file not found")
        end
  end.

(** [cleanup_conversion_job]: the paths it unlinks and the table it
    leaves. *)
Definition cleanup_conversion_job (tempdir : string)
           (exists_ : string -> bool) (jobs : Jobs) (job_id : string)
  : Raised + (list string * Jobs) :=
  match jobs !! job_id with
  | None => inl (HTTPException 404 "Job not found")
  | Some job =>
      let input_file :=
        tempdir +:+ "/pdf_uploads/upload_" +:+ job_id +:+ ".pdf" in
      let removed_input := if exists_ input_file then [input_file] else [] in
      let removed_output :=
        match e_output_file job with
        | Some (String c rest) =>
            if exists_ (String c rest) then [String c rest] else []
        | _ => []
        end in
      inr (removed_input ++ removed_output, delete job_id jobs)
  end.

End ConversionRoutes.

(* ===================================================================== *)
(** * Properties *)
(* ===================================================================== *)

(** ** Vocabulary for the life of a job *)

Module Lifecycle.
Import Models PdfProcessor.


Definition transition_ok (a b : JobStatus) : bool :=
  match a, b with
  | QUEUED, PROCESSING | PROCESSING, COMPLETED | PROCESSING, FAILED => true
  | _, _ => bool_decide (a = b)
  end.

(** Every two neighbours of a list are related. *)
Fixpoint adjacent {A} (R : A -> A -> bool) (l : list A) : bool :=
  match l with
  | a :: (b :: _) as t => R a b && adjacent R t
  | _ => true
  end.

(** The coroutine does not hand control back while the record shows a
    terminal status. *)
Definition calm (e : event) : bool :=
  if is_suspension e then negb (is_terminal (status (event_job e))) else true.

(** An assignment that changes the status leaves the progress alone. *)
Definition keeps_progress (a b : ProcessingJob) : bool :=
  bool_decide (status a = status b) || (progress a =? progress b).

Definition in_range (v : Z) : bool := (0 <=? v) && (v <=? 100).

Definition has_result (j : ProcessingJob) : bool :=
  match result j with Some _ => true | None => false end.

(** The two statuses [_process_job] ends in. *)
Definition is_outcome (s : JobStatus) : bool :=
  match s with COMPLETED | FAILED => true | _ => false end.

Definition completed_ok (j : ProcessingJob) : bool :=
  match status j with
  | COMPLETED => (progress j =? 100) && has_result j
  | _ => true
  end.

(** The records of a history, its status values, its progress values. *)
Definition records (h : list event * pstate * (string + unit))
  : list ProcessingJob := event_job <$> h.1.1.
Definition status_values (h : list event * pstate * (string + unit))
  : list JobStatus := status <$> records h.
Definition progress_values (h : list event * pstate * (string + unit))
  : list Z := progress <$> records h.
Definition final (h : list event * pstate * (string + unit))
  : ProcessingJob := st_job h.1.2.

End Lifecycle.

(** ** Sample inputs *)

Module Samples.
Import Models PdfProcessor.

Definition sample_service : Service :=
  mkService ∅ ∅ "/tmp/pdf_saas_platform" (mkEngines true true) [].

Definition sample_create : CreateEnv :=
  mkCreateEnv "3f2b8c1e-0000-4000-8000-000000000001" None 1000 1001.

Definition sample_env : Env :=
  mkEnv 1010 5200 5300 (inr 3) None (inr 2048) None (fun n => 3 * n / 10).

Definition sample_path : Path := mkPath "/uploads/report.pdf" "report.pdf".

Definition sample_options (op : string) : ProcessingOptions :=
  mkOptions op None None false.

Definition second_create : CreateEnv :=
  mkCreateEnv "3f2b8c1e-0000-4000-8000-000000000002" (Some 4096) 1002 1003.

(** A gate of capacity one: two jobs are submitted, the first one is
    let in and sleeps inside [_merge_pdfs]. *)
Definition gate0 : Scheduler.System :=
  Scheduler.initial "/tmp/pdf_saas_platform" (mkEngines true true)
                    (Some 1%nat).

Definition gate1 : Scheduler.System :=
  Scheduler.mkSystem
    (create_job (Scheduler.service gate0) sample_create sample_path
                (sample_options "merge")).2
    (Scheduler.permits gate0) (Scheduler.started gate0)
    (Scheduler.inside gate0).

Definition gate2 : Scheduler.System :=
  Scheduler.mkSystem
    (create_job (Scheduler.service gate1) second_create sample_path
                (sample_options "split")).2
    (Scheduler.permits gate1) (Scheduler.started gate1)
    (Scheduler.inside gate1).

Definition gate3 : Scheduler.System :=
  let '(log, st, _) :=
    process_body (temp_dir (Scheduler.service gate2))
                 (engines (Scheduler.service gate2)) sample_env
                 (mkState (new_job sample_create sample_path
                                   (sample_options "merge"))
                          (new_metrics sample_create)) in
  Scheduler.run_on (uuid4 sample_create) log st
    (Scheduler.mkSystem (Scheduler.service gate2) 0
       ({[uuid4 sample_create]} ∪ Scheduler.started gate2)
       (Scheduler.inside gate2)).

(** A conversion whose external run exits with status 1 and names the
    missing export filter, while the in-process strategy lacks its
    packages. *)
Definition sample_pdf : LibreOffice.InputFile :=
  LibreOffice.mkInput "/uploads/slides.pdf" "slides.pdf" true ".PDF" 52000.

Definition world_nonzero_unsupported : LibreOffice.World :=
  LibreOffice.mkWorld
    (LibreOffice.Exited 1 "Error: no export filter for pptx" [])
    (LibreOffice.AltDepsMissing "No module named 'pdf2image'")
    "LibreOffice 7.6" 1200.

(** A conversion whose external run exits with status 0, a clean error
    stream, and an empty file where the presentation should be. *)
Definition world_empty_output : LibreOffice.World :=
  LibreOffice.mkWorld
    (LibreOffice.Exited 0 "" [LibreOffice.mkFile "input_j1.pptx" 0 None])
    (LibreOffice.AltDepsMissing "No module named 'pdf2image'")
    "LibreOffice 7.6" 1200.

(** The rate limiter of a service that has seen no request yet. *)
Definition empty_auth : RateGovernor.Auth := RateGovernor.mkAuth ∅ [].

End Samples.

(** ** Vocabulary for what the registry shows *)

Module Invariants.
Import Models PdfProcessor Scheduler Lifecycle.

(** A job with every field [_process_job] assigns put back to what
    [create_job] gave it: what is left is what was submitted. *)
Definition submitted (j : ProcessingJob) : ProcessingJob :=
  mkJob (id j) (filename j) (file_path j) (options j) QUEUED 0
        (created_at j) None None None (file_size_bytes j) None None.

(** The three shapes a record is seen in: as [create_job] made it;
    being processed; with its outcome. *)
Definition untouched (j : ProcessingJob) : Prop := j = submitted j.

Definition running (j : ProcessingJob) : Prop :=
  status j = PROCESSING /\ is_Some (started_at j)
  /\ result j = None /\ error j = None
  /\ completed_at j = None /\ processing_time_ms j = None.

Definition settled (j : ProcessingJob) : Prop :=
  is_Some (started_at j) /\ is_Some (completed_at j)
  /\ 0 <= progress j <= 100
  /\ ((status j = COMPLETED /\ progress j = 100 /\ is_Some (result j)
       /\ error j = None /\ is_Some (processing_time_ms j))
      \/ (status j = FAILED /\ result j = None /\ is_Some (error j)
          /\ processing_time_ms j = None)).

(** The same, as checks. *)
Definition is_none {A} (o : option A) : bool :=
  match o with None => true | Some _ => false end.
Definition is_some {A} (o : option A) : bool := negb (is_none o).

Definition running_b (j : ProcessingJob) : bool :=
  bool_decide (status j = PROCESSING) && is_some (started_at j)
  && is_none (result j) && is_none (error j)
  && is_none (completed_at j) && is_none (processing_time_ms j).

Definition settled_b (j : ProcessingJob) : bool :=
  is_some (started_at j) && is_some (completed_at j)
  && in_range (progress j)
  && match status j with
     | COMPLETED =>
         (progress j =? 100) && is_some (result j) && is_none (error j)
         && is_some (processing_time_ms j)
     | FAILED =>
         is_none (result j) && is_some (error j)
         && is_none (processing_time_ms j)
     | _ => false
     end.

(** Where the coroutine is suspended, the record is a running one. *)
Definition suspended_running (e : event) : bool :=
  if is_suspension e then running_b (event_job e) else true.

(** The name of the engine [_select_engine] picks for a job. *)
Definition engine_name (self : Engines) (job : ProcessingJob)
  : option string :=
  match _select_engine self job with
  | inr e => Some (engine_value e)
  | inl _ => None
  end.

(** What the final record says about the run it ends. *)
Definition outcome_ok (self : Engines) (env : Env) (s : pstate)
           (fin : ProcessingJob) : Prop :=
  started_at fin = Some (clock_started env)
  /\ match status fin with
     | COMPLETED =>
         completed_at fin = Some (clock_end env)
         /\ processing_time_ms fin
            = Some (clock_end env - start_time (st_metrics s))
         /\ (success <$> result fin) = Some true
         /\ (engine_used <$> result fin) = engine_name self (st_job s)
     | FAILED => completed_at fin = Some (clock_failed env)
     | _ => False
     end.

(** The progress values of a log. *)
Definition progress_of (log : list event) : list Z :=
  (fun e => progress (event_job e)) <$> log.

(** Everything one run of the body of [_process_job] is checked for. *)
Definition body_facts (self : Engines) (env : Env) (s : pstate)
           (r : list event * pstate * (string + unit)) : Prop :=
  forallb suspended_running r.1.1 = true
  /\ settled_b (st_job r.1.2) = true
  /\ adjacent Z.leb (0 :: progress_of r.1.1 ++ [progress (st_job r.1.2)]) = true
  /\ forallb in_range (progress_of r.1.1 ++ [progress (st_job r.1.2)]) = true
  /\ Forall (fun e => submitted (event_job e) = submitted (st_job s)) r.1.1
  /\ submitted (st_job r.1.2) = submitted (st_job s)
  /\ outcome_ok self env s (st_job r.1.2).

(** A log still to run, for a job the registry shows as [j], with the
    record [fin] it ends in. *)
Record run_ok (j : ProcessingJob) (log : list event) (fin : ProcessingJob)
  : Prop := mkRunOk {
  run_suspended : Forall (fun e => is_suspension e = true -> running (event_job e)) log;
  run_frame : Forall (fun e => submitted (event_job e) = submitted j) log;
  run_settled : settled fin;
  run_final_frame : submitted fin = submitted j;
  run_ascending :
    adjacent Z.leb (progress j :: progress_of log ++ [progress fin]) = true;
  run_range : Forall (fun e => 0 <= progress (event_job e) <= 100) log;
  run_final_range : 0 <= progress fin <= 100
}.

(** What the event loop keeps true of the registry. *)
Record registry_invariant (s : System) : Prop := mkRegistryInvariant {
  reg_tasks : forall job_id,
    job_id ∈ tasks (service s) <-> is_Some (jobs (service s) !! job_id);
  reg_metrics : forall job_id,
    is_Some (jobs (service s) !! job_id)
    <-> is_Some (metrics (service s) !! job_id);
  reg_started : forall job_id,
    job_id ∈ started s -> is_Some (jobs (service s) !! job_id);
  reg_waiting : forall job_id j,
    jobs (service s) !! job_id = Some j ->
    job_id ∉ started s -> untouched j;
  reg_inside : forall job_id rest st,
    inside s !! job_id = Some (rest, st) ->
    exists j,
      jobs (service s) !! job_id = Some j
      /\ running j /\ 0 <= progress j <= 100
      /\ run_ok j rest (st_job st);
  reg_finished : forall job_id j,
    jobs (service s) !! job_id = Some j ->
    job_id ∈ started s -> inside s !! job_id = None -> settled j
}.

End Invariants.

(** ** More sample inputs *)

Module Examples.
Import Models PdfProcessor Samples.






(** A document PyMuPDF cannot open. *)
Definition broken_env : Env :=
  mkEnv 1010 5200 5300 (inl "cannot open broken document") None (inr 2048)
        None (fun n => 3 * n / 10).


End Examples.

(** ** Vocabulary for the conversion pipeline and the rate governor *)

Module Pipeline.
Import LibreOffice.

(** The working directory of a conversion once the external run is
    over: the staged copy of the input and whatever the run left. *)
Definition working_directory (w : World) (pdf : InputFile) (job_id : string)
  : list File :=
  let staged := mkFile ("input_" +:+ job_id +:+ ".pdf") (in_size pdf) None in
  match primary w with
  | Exited _ _ files => fold_left (fun d f => write_file f d) files [staged]
  | _ => [staged]
  end.

(** The message of the failure a run reports, if it reports one. *)
Definition reported_error (r : ConversionResult) : option string :=
  match r with
  | ConversionFailed _ e _ => Some e
  | Converted _ _ _ _ _ _ _ _ => None
  end.

End Pipeline.

Module Governor.
Import RateGovernor.

(** Every bucket the limiter stores has been consumed from at least
    once and resets when its hour ends. *)
Definition well_kept (self : Auth) : Prop :=
  forall identifier hour b,
    bucket self identifier hour = Some b ->
    1 <= count b /\ reset_time b = (hour + 1) * us_per_hour.

End Governor.

(** ** Vocabulary for the authentication service *)

Module Accounts.
Import AuthModels AuthService.

(** The rate limiter of a service. *)
Definition governor (self : Service) : RateGovernor.Auth :=
  RateGovernor.mkAuth (rate_limits self) [].

(** The service after a series of registrations, whatever each one
    answered. *)
Definition register_all (hash : string -> string)
           (calls : list (UserEnv * UserCreate)) (self : Service) : Service :=
  fold_left (fun s c => (create_user hash s c.1 c.2).2) calls self.

(** What registrations keep true of the users. *)
Definition accounts_ok (s : Service) : Prop :=
  NoDup (u_email <$> dict_values (users s))
  /\ Forall (fun u => u_is_active u = true) (dict_values (users s)).

(** [track_document_processing] called at each of the given times:
    the answers, and the service afterwards. *)
Fixpoint track_all (self : Service) (times : list Z) (user_id : string)
  : list bool * Service :=
  match times with
  | [] => ([], self)
  | now :: rest =>
      let '(ok, s1) := track_document_processing self now user_id in
      let '(oks, s2) := track_all s1 rest user_id in
      (ok :: oks, s2)
  end.

(** The requests of one client, each presenting the same [X-API-Key]
    header, served one after the other. *)
Fixpoint serve (hash : string -> string) (timestamp : Z -> Z)
         (auth_service : Service) (api_key : string)
         (requests : list AuthRoutes.RequestEnv)
  : list (AuthRoutes.HTTPException + User) * Service :=
  match requests with
  | [] => ([], auth_service)
  | env :: rest =>
      let '(r, s1) :=
        AuthRoutes.get_current_user_from_api_key hash timestamp auth_service
          env (Some api_key) None in
      let '(rs, s2) := serve hash timestamp s1 api_key rest in
      (r :: rs, s2)
  end.

(** What the dependency needs of the service to let a key through:
    the key is stored, active and without an expiry, for a user that is
    stored and active. *)
Record key_usable (hash : string -> string) (self : Service)
       (api_key key_id : string) (limit : Z) (user : User) : Prop :=
  mkKeyUsable {
  usable_record : exists record,
    dict_get (hash api_key) (api_keys self) = Some record
    /\ k_id record = key_id /\ k_rate_limit_per_hour record = limit
    /\ k_is_active record = true /\ k_expires_at record = None
    /\ dict_get (k_user_id record) (users self) = Some user;
  usable_user : u_is_active user = true
}.

(** A strong password, and a registration that uses it. *)
Definition sample_hash (key : string) : string := "sha256:" +:+ key.

Definition sample_user_env : UserEnv :=
  mkUserEnv "7d0c6a52-0000-4000-8000-00000000000a" 1700000000000000
            (mkKeyEnv "Zm9vYmFy" "7d0c6a52-0000-4000-8000-00000000000b"
                      1700000000000001).

Definition sample_registration : UserCreate :=
  mkUserCreate "trial@example.com" "Trial User" None UserRole.TRIAL
               PlanType.FREE "Trial123!".

Definition sample_accounts : Service :=
  (create_user sample_hash empty sample_user_env sample_registration).2.


Definition sample_user : User :=
  mkUser "7d0c6a52-0000-4000-8000-00000000000a" "trial@example.com"
         "Trial User" None UserRole.TRIAL PlanType.FREE true
         1700000000000000 1700000000000000 None false 0 0 10.

(** The same service after the user has made a key of two requests per
    hour, and three requests within one hour. *)
Definition metered_accounts : Service :=
  (create_api_key sample_hash sample_accounts
     (mkKeyEnv "bWV0ZXI" "7d0c6a52-0000-4000-8000-00000000000e"
               1700000000700000)
     "7d0c6a52-0000-4000-8000-00000000000a"
     (mkAPIKeyCreate "Metered" None [APIKeyScope.READ] None 2)).2.

Definition metered_key : string := "pdfsaas_bWV0ZXI".

Definition three_requests : list AuthRoutes.RequestEnv :=
  [AuthRoutes.mkRequestEnv 1700001000000000 1700001000000001
                           1700001000000002 1700001000000003;
   AuthRoutes.mkRequestEnv 1700001100000000 1700001100000001
                           1700001100000002 1700001100000003;
   AuthRoutes.mkRequestEnv 1700001200000000 1700001200000001
                           1700001200000002 1700001200000003].

End Accounts.

(** ** Sample uploads *)

Module Uploads.
Import FileManager ProcessingRoutes ConversionRoutes.

(** A stand-in for the digest, the final component of the sample path,
    and a small upload. *)
Definition sample_md5 (content : list Byte.byte) : string :=
  "9e107d9d372bb6826bd81d3542a419d6".

Definition sample_final_component (path : string) : string :=
  "1700000000_9e107d9d_report.PDF".

Definition sample_content : list Byte.byte :=
  [Byte.x25; Byte.x50; Byte.x44; Byte.x46; Byte.x2d; Byte.x31].

Definition sample_upload_env : UploadEnv :=
  mkUploadEnv (mkSaveEnv 1700000000 None)
              "3f2b8c1e-0000-4000-8000-000000000009" 1700000001 1700000002.

Definition sample_form : Form := mkForm "compress" None false.

(** A conversion job as the route stores it. *)
Definition sample_jobs : Jobs :=
  {["c1" := new_entry "slides.pdf" 52000 "9e107d9d372bb6826bd81d3542a419d6"
                      1700000000]}.

End Uploads.

(** ** Running the coroutine on symbolic records *)

Import Models PdfProcessor Lifecycle Samples.

(** The dispatch picks one of the five handlers. *)
Lemma dispatch_cases temp self env op :
  dispatch temp self env op = _merge_pdfs temp
  \/ dispatch temp self env op = _split_pdf temp
  \/ dispatch temp self env op = _compress_pdf temp self env
  \/ dispatch temp self env op = _convert_pdf temp
  \/ dispatch temp self env op = _optimize_pdf temp.
Proof.
  unfold dispatch.
  destruct (String.eqb op "merge"); [left; reflexivity | right].
  destruct (String.eqb op "split"); [left; reflexivity | right].
  destruct (String.eqb op "compress"); [left; reflexivity | right].
  destruct (String.eqb op "convert"); [left; reflexivity | right].
  reflexivity.
Qed.

(** Running the coroutine on a record whose fields are variables: unfold
    the binds up to the dispatch, split on the handler and on whatever
    the run then branches on, and evaluate. Clock differences stay
    folded. *)
Ltac run_up_to_dispatch :=
  cbv beta iota zeta delta
      [job_history _process_job process_body try_except new_job new_metrics
       mbind task_bind mret task_ret suspend assign_job assign_metrics
       get_job get_metrics external raise
       st_job st_metrics options operation temp_dir engines
       with_status with_started_at id filename file_path status progress
       created_at started_at completed_at processing_time_ms
       file_size_bytes result error
       clock_started clock_end clock_failed app fst snd].

Ltac split_on_stuck_match :=
  match goal with
  | |- context [match ?b with _ => _ end] =>
      lazymatch b with
      | context [match _ with _ => _ end] => fail
      | _ => destruct b eqn:?
      end
  end.

Ltac evaluate :=
  cbv -[Z.sub]; repeat (split_on_stuck_match; cbv -[Z.sub]).

Ltac run_job self cenv env opts :=
  let mu := fresh "mupdf" in
  let pd := fresh "pdfium" in
  let op := fresh "op" in
  let req := fresh "compliance" in
  let H := fresh in
  destruct self as [? ? ?temp [mu pd] ?], opts as [op ? ? req],
           env as [? ? ? ? ? ? ? ?], cenv as [? ? ? ?];
  run_up_to_dispatch;
  match goal with
  | |- context [dispatch ?t ?s ?e op] =>
      destruct (dispatch_cases t s e op) as [H|[H|[H|[H|H]]]];
      rewrite H; clear H
  end;
  destruct req, mu, pd;
  evaluate.

(** ** Engine selection *)

Section EngineSelection.

(** C1, counterexample: a job that requires compliance, submitted while
    only the default engine is available, is given the default engine;
    selection does not fail. *)
Lemma select_engine_compliance_falls_back_to_mupdf :
  ~ (forall (self : Engines) (job : ProcessingJob),
        require_enterprise_compliance (options job) = true ->
        pdfium_available self = false ->
        _select_engine self job <> inr MUPDF).
Proof.
  intros H.
  apply (H (mkEngines true false)
           (mkJob "j" "a.pdf" "/in/a.pdf" (mkOptions "compress" None None true)
                  QUEUED 0 0 None None None 0 None None));
    reflexivity.
Qed.

(** C1, amended: selection follows the priority order (the compliance
    engine when compliance is required and that engine is available;
    otherwise the default engine when available; otherwise the
    compliance engine when available; otherwise failure).  A job that
    requires compliance while the compliance engine is unavailable goes
    through the same order: it gets the default engine when that one is
    available and fails otherwise. *)
Theorem select_engine_priority (self : Engines) (job : ProcessingJob) :
  (require_enterprise_compliance (options job) = true ->
   pdfium_available self = true ->
   _select_engine self job = inr PDFIUM)
  /\ (~ (require_enterprise_compliance (options job) = true
         /\ pdfium_available self = true) ->
      mupdf_available self = true ->
      _select_engine self job = inr MUPDF)
  /\ (mupdf_available self = false ->
      pdfium_available self = true ->
      _select_engine self job = inr PDFIUM)
  /\ (mupdf_available self = false ->
      pdfium_available self = false ->
      _select_engine self job = inl "No PDF processing engine available")
  /\ (require_enterprise_compliance (options job) = true ->
      pdfium_available self = false ->
      _select_engine self job
      = if mupdf_available self then inr MUPDF
        else inl "No PDF processing engine available").
Proof.
  unfold _select_engine.
  destruct (require_enterprise_compliance (options job)),
           (pdfium_available self), (mupdf_available self); cbn;
    repeat split; intros; try reflexivity; try discriminate;
    exfalso; auto.
Qed.

Lemma select_engine_priority_witness :
  _select_engine (mkEngines false true)
    (mkJob "j" "a.pdf" "/in/a.pdf" (mkOptions "compress" None None true)
           QUEUED 0 0 None None None 0 None None)
  = inr PDFIUM.
Proof.
  apply (proj1 (select_engine_priority _ _)); reflexivity.
Defined.

End EngineSelection.

(** ** The life of one job *)

Section JobLifecycle.

Lemma adjacent_lookup {A} (R : A -> A -> bool) (l : list A) (i : nat) a b :
  adjacent R l = true ->
  l !! i = Some a -> l !! S i = Some b -> R a b = true.
Proof.
  revert i; induction l as [|x [|y l] IH]; intros i Hadj Ha Hb.
  - discriminate.
  - destruct i; discriminate.
  - cbn [adjacent] in Hadj. apply andb_prop in Hadj as [Hxy Hrest].
    destruct i as [|i].
    + cbn in Ha, Hb. congruence.
    + exact (IH i Hrest Ha Hb).
Qed.


(** What the symbolic execution establishes about every history. *)
Lemma history_checks self cenv env file_path opts :
  let h := job_history self cenv env file_path opts in
  head (records h) = Some (new_job cenv file_path opts)
  /\ last (records h) = Some (final h)
  /\ adjacent transition_ok (status_values h) = true
  /\ forallb calm h.1.1 = true
  /\ is_outcome (status (final h)) = true
  /\ adjacent Z.leb (progress_values h) = true
  /\ forallb in_range (progress_values h) = true
  /\ adjacent keeps_progress (records h) = true
  /\ completed_ok (final h) = true.
Proof.
  cbv zeta.
  unfold records, status_values, progress_values, final, records.
  run_job self cenv env opts; repeat split; reflexivity.
Qed.


(** C5, counterexample: while [_split_pdf] sleeps after its last
    progress write, the record shows progress 100 with status
    PROCESSING. *)
Lemma progress_100_while_processing :
  ~ (forall self cenv env file_path opts j,
        Suspended j ∈ (job_history self cenv env file_path opts).1.1 ->
        (progress j = 100 <-> status j = COMPLETED)).
Proof.
  intros H.
  pose (j := with_progress 100
               (with_started_at (clock_started sample_env)
                  (with_status PROCESSING
                     (new_job sample_create sample_path
                              (sample_options "split"))))).
  assert (Hin : Suspended j
                ∈ (job_history sample_service sample_create sample_env
                     sample_path (sample_options "split")).1.1).
  { apply (list_elem_of_lookup_2 _ 23%nat). reflexivity. }
  apply H in Hin. destruct Hin as [Hin _].
  specialize (Hin eq_refl). discriminate Hin.
Qed.

(** C5, amended: progress starts at 0, never decreases and stays within
    0..100; an assignment that changes the status leaves progress as it
    was (so a failed job keeps its last reported value); a COMPLETED job
    has progress 100, written by its handler, and its result attached. *)
Theorem job_progress self cenv env file_path opts :
  let h := job_history self cenv env file_path opts in
  head (progress_values h) = Some 0
  /\ (forall (i : nat) a b,
        progress_values h !! i = Some a ->
        progress_values h !! S i = Some b ->
        a <= b)
  /\ (forall v, v ∈ progress_values h -> 0 <= v <= 100)
  /\ (forall (i : nat) a b,
        records h !! i = Some a ->
        records h !! S i = Some b ->
        status a <> status b ->
        progress b = progress a)
  /\ (status (final h) = COMPLETED ->
      progress (final h) = 100 /\ is_Some (result (final h))).
Proof.
  intros h.
  destruct (history_checks self cenv env file_path opts)
    as (Hhd & _ & _ & _ & _ & Hmono & Hrange & Hkeep & Hdone).
  fold h in Hhd, Hmono, Hrange, Hkeep, Hdone.
  repeat split.
  - unfold progress_values. destruct (records h); [discriminate|].
    cbn in Hhd |- *. injection Hhd as ->. reflexivity.
  - intros i a b Ha Hb. apply Z.leb_le.
    exact (adjacent_lookup _ _ i a b Hmono Ha Hb).
  - apply list_elem_of_In in H.
    pose proof (proj1 (forallb_forall in_range _) Hrange _ H) as Hv.
    apply andb_prop in Hv as [Hv _]. now apply Z.leb_le.
  - apply list_elem_of_In in H.
    pose proof (proj1 (forallb_forall in_range _) Hrange _ H) as Hv.
    apply andb_prop in Hv as [_ Hv]. now apply Z.leb_le.
  - intros i a b Ha Hb Hne.
    pose proof (adjacent_lookup _ _ i a b Hkeep Ha Hb) as Hk.
    unfold keeps_progress in Hk. apply orb_prop in Hk as [Hk|Hk].
    + apply bool_decide_eq_true in Hk. contradiction.
    + apply Z.eqb_eq in Hk. congruence.
  - unfold completed_ok in Hdone. rewrite H in Hdone.
    apply andb_prop in Hdone as [Hp _]. now apply Z.eqb_eq.
  - unfold completed_ok in Hdone. rewrite H in Hdone.
    apply andb_prop in Hdone as [_ Hr]. unfold has_result in Hr.
    destruct (result (final h)); [eauto | discriminate].
Qed.

Lemma job_progress_witness :
  let h := job_history sample_service sample_create sample_env sample_path
                       (sample_options "merge") in
  status (final h) = COMPLETED /\ progress (final h) = 100.
Proof.
  intros h. split; [reflexivity|].
  apply (proj2 (proj2 (proj2 (proj2
           (job_progress sample_service sample_create sample_env
                         sample_path (sample_options "merge")))))).
  reflexivity.
Defined.






End JobLifecycle.

(** ** Submission *)

Section Submission.



End Submission.

(** ** The global concurrency gate *)

Section GlobalGate.
Import Scheduler.

(** Whatever record the coroutine starts from, it ends COMPLETED or
    FAILED. *)
Lemma process_body_ends temp self env s :
  is_outcome (status (st_job (process_body temp self env s).1.2)) = true.
Proof.
  destruct s as [[? ? ? [op ? ? compliance] ? ? ? ? ? ? ? ? ?] [? ? ? ? ? ?]],
           self as [mupdf pdfium], env as [? ? ? ? ? ? ? ?].
  run_up_to_dispatch.
  match goal with
  | |- context [dispatch ?t ?s ?e op] =>
      destruct (dispatch_cases t s e op) as [H|[H|[H|[H|H]]]];
      rewrite H; clear H
  end;
  destruct compliance, mupdf, pdfium; evaluate; reflexivity.
Qed.

Lemma process_body_not_processing temp self env s log st r :
  process_body temp self env s = (log, st, r) ->
  status (st_job st) <> PROCESSING.
Proof.
  intros Hrun Hst.
  pose proof (process_body_ends temp self env s) as Hend.
  rewrite Hrun in Hend. cbn in Hend. rewrite Hst in Hend. discriminate.
Qed.

Lemma gate_invariant_initial temp eng configured :
  gate_invariant (max_concurrent_jobs configured)
                 (initial temp eng configured).
Proof.
  split; cbn.
  - rewrite map_size_empty. lia.
  - intros job_id [x Hx]. rewrite lookup_empty in Hx. discriminate.
  - intros job_id j Hj. rewrite lookup_empty in Hj. discriminate.
  - intros job_id rest st Hin. rewrite lookup_empty in Hin. discriminate.
Qed.

(** Running a coroutine on: it holds a slot before and either keeps it
    (suspended again) or gives it back (finished). [held] tells whether
    the slot is already counted in [inside]. *)
Lemma run_on_invariant c job_id log st s :
  (permits s + size (delete job_id (inside s)) + 1)%nat = c ->
  job_id ∈ started s ->
  status (st_job st) <> PROCESSING ->
  (forall k, is_Some (inside s !! k) -> k ∈ started s) ->
  (forall k j, k <> job_id -> jobs (service s) !! k = Some j ->
               status j = PROCESSING -> is_Some (inside s !! k)) ->
  (forall k rest' st', inside s !! k = Some (rest', st') ->
                       status (st_job st') <> PROCESSING) ->
  gate_invariant c (run_on job_id log st s).
Proof.
  intros Hslots Hstarted Hend Hin Hproc Hends.
  unfold run_on, store_job, store_final.
  destruct (next_suspension log) as [[j rest]|]; split; cbn.
  - rewrite <- (insert_delete_eq (inside s)).
    rewrite map_size_insert_None by apply lookup_delete_eq. lia.
  - intros k Hk. destruct (decide (k = job_id)) as [->|Hne]; [done|].
    rewrite lookup_insert_ne in Hk by done. auto.
  - intros k j' Hk Hst. destruct (decide (k = job_id)) as [->|Hne].
    + rewrite lookup_insert_eq. eauto.
    + rewrite lookup_insert_ne in Hk by done.
      rewrite lookup_insert_ne by done. eauto.
  - intros k rest' st' Hk. destruct (decide (k = job_id)) as [->|Hne].
    + rewrite lookup_insert_eq in Hk. injection Hk as <- <-. exact Hend.
    + rewrite lookup_insert_ne in Hk by done. eauto.
  - lia.
  - intros k Hk. destruct (decide (k = job_id)) as [->|Hne]; [done|].
    rewrite lookup_delete_ne in Hk by done. auto.
  - intros k j' Hk Hst. destruct (decide (k = job_id)) as [->|Hne].
    + rewrite lookup_insert_eq in Hk. injection Hk as <-. contradiction.
    + rewrite lookup_insert_ne in Hk by done.
      rewrite lookup_delete_ne by done. eauto.
  - intros k rest' st' Hk. destruct (decide (k = job_id)) as [->|Hne].
    + rewrite lookup_delete_eq in Hk. discriminate.
    + rewrite lookup_delete_ne in Hk by done. eauto.
Qed.

Lemma step_invariant c s s' :
  gate_invariant c s -> step s s' -> gate_invariant c s'.
Proof.
  intros [Hslots Hin Hproc Hends] Hstep.
  destruct Hstep as [s cenv file_path opts Hfresh
                    | s n job_id job m env Htask Hnew Hpermits Hjob Hm
                    | s n job_id Htask Hnew Hpermits Hmissing
                    | s job_id rest st Hinside].
  - (* submission *)
    split; cbn; auto.
    intros k j Hk Hst. destruct (decide (k = uuid4 cenv)) as [->|Hne].
    + rewrite lookup_insert_eq in Hk. injection Hk as <-. discriminate.
    + rewrite lookup_insert_ne in Hk by done. eauto.
  - (* a coroutine goes past the semaphore *)
    destruct (process_body _ _ _ _) as [[log st] r] eqn:Hrun.
    assert (Hout : inside s !! job_id = None).
    { destruct (inside s !! job_id) eqn:E; [|done].
      exfalso. apply Hnew, Hin. eauto. }
    apply run_on_invariant; cbn.
    + rewrite map_size_delete_None by done. lia.
    + set_solver.
    + eapply process_body_not_processing, Hrun.
    + intros k Hk. apply Hin in Hk. set_solver.
    + eauto.
    + eauto.
  - (* the coroutine finds no job and leaves at once *)
    split; cbn; auto.
    intros k Hk. apply elem_of_union. right. auto.
  - (* resumption *)
    apply run_on_invariant; eauto.
    rewrite map_size_delete_Some by eauto.
    assert (size (inside s) <> 0)%nat.
    { apply map_size_ne_0_lookup_2 with job_id. eauto. }
    lia.
Qed.

Lemma reachable_invariant temp eng configured s :
  reachable temp eng configured s ->
  gate_invariant (max_concurrent_jobs configured) s.
Proof.
  unfold reachable. intros Hreach.
  eapply (rtc_ind_r (gate_invariant (max_concurrent_jobs configured)));
    [ | | exact Hreach].
  - apply gate_invariant_initial.
  - intros s1 s2 _ Hstep IH. eapply step_invariant; eauto.
Qed.

Lemma processing_within_inside c s :
  gate_invariant c s -> (size (processing_jobs s) <= c)%nat.
Proof.
  intros [Hslots _ Hproc _].
  assert (Hsub : dom (processing_jobs s) ⊆ dom (inside s)).
  { intros k Hk. apply elem_of_dom in Hk as [j Hj].
    unfold processing_jobs in Hj.
    apply map_lookup_filter_Some in Hj as [Hj Hst]. cbn in Hst.
    apply elem_of_dom. eauto. }
  apply subseteq_size in Hsub. rewrite !size_dom in Hsub. lia.
Qed.

(** C6: in every state the event loop can reach, however many jobs have
    been submitted, at most [max_concurrent_jobs] jobs (10 unless
    configured) have status PROCESSING.  Submission is a step of its own
    that consults neither the semaphore nor any running job: it is
    enabled in every state, returns the new id, stores the job as
    QUEUED and leaves the semaphore as it was. *)
Theorem global_concurrency_bound temp eng configured s :
  reachable temp eng configured s ->
  max_concurrent_jobs None = 10%nat
  /\ (size (processing_jobs s) <= max_concurrent_jobs configured)%nat
  /\ (forall cenv path opts,
        jobs (service s) !! uuid4 cenv = None ->
        let submitted := create_job (service s) cenv path opts in
        let s' := mkSystem submitted.2 (permits s) (started s) (inside s) in
        submitted.1 = uuid4 cenv
        /\ step s s'
        /\ reachable temp eng configured s'
        /\ (status <$> jobs (service s') !! submitted.1) = Some QUEUED
        /\ permits s' = permits s).
Proof.
  intros Hreach. split; [reflexivity|]. split.
  - apply processing_within_inside, (reachable_invariant temp eng), Hreach.
  - intros cenv path opts Hfresh submitted s'.
    assert (Hstep : step s s') by (apply step_submit; exact Hfresh).
    split; [reflexivity|]. split; [exact Hstep|]. split.
    + eapply rtc_r; eauto.
    + split; [|reflexivity]. cbn. rewrite lookup_insert_eq. reflexivity.
Qed.

Lemma gate3_reachable :
  reachable "/tmp/pdf_saas_platform" (mkEngines true true) (Some 1%nat) gate3.
Proof.
  unfold reachable.
  apply rtc_l with gate1.
  { apply (step_submit gate0 sample_create sample_path
                       (sample_options "merge")).
    reflexivity. }
  apply rtc_l with gate2.
  { apply (step_submit gate1 second_create sample_path
                       (sample_options "split")).
    vm_compute. reflexivity. }
  apply rtc_once.
  apply (step_enter gate2 0 (uuid4 sample_create)
                    (new_job sample_create sample_path
                             (sample_options "merge"))
                    (new_metrics sample_create) sample_env).
  - apply elem_of_app. left. apply elem_of_app. right.
    apply list_elem_of_here.
  - apply not_elem_of_empty.
  - reflexivity.
  - vm_compute. reflexivity.
  - vm_compute. reflexivity.
Qed.

Lemma global_concurrency_bound_witness :
  size (jobs (service gate3)) = 2%nat
  /\ permits gate3 = 0%nat
  /\ (size (processing_jobs gate3) <= 1)%nat.
Proof.
  split; [vm_compute; reflexivity|]. split; [reflexivity|].
  exact (proj1 (proj2 (global_concurrency_bound _ _ _ gate3 gate3_reachable))).
Defined.

End GlobalGate.

(** ** The conversion pipeline *)

Section ConversionPipeline.
Import LibreOffice.



Lemma contains_skip (n before hay : string) :
  contains n hay = true -> contains n (before +:+ hay) = true.
Proof.
  intros H. induction before as [|c before IH]; [exact H|].
  change (String c before +:+ hay) with (String c (before +:+ hay)).
  change (contains n (String c (before +:+ hay)))
    with (String.prefix n (String c (before +:+ hay))
          || contains n (before +:+ hay)).
  rewrite IH. apply orb_true_r.
Qed.



(** The error message of a run that failed with exception [e]. *)
Lemma failed_returned job_id e w ran :
  returned (failed job_id e w ran)
  = ConversionFailed job_id ("PDF to PPT conversion failed: " +:+ str e)
                     (conversion_time w).
Proof. reflexivity. Qed.




Lemma write_file_elem f dir : f ∈ write_file f dir.
Proof.
  induction dir as [|g dir IH]; cbn.
  - apply list_elem_of_here.
  - destruct (String.eqb (fname g) (fname f)).
    + apply list_elem_of_here.
    + apply list_elem_of_further, IH.
Qed.

(** The in-process strategy validates what it saves: when it returns a
    path, the file of that name in the working directory passes
    [_validate_pptx_file]. *)
Lemma alternative_validates a dir job_id dir' path :
  _convert_pdf_to_pptx_alternative a dir job_id = (dir', inr path) ->
  exists f, f ∈ dir' /\ fname f = path /\ _validate_pptx_file f = true.
Proof.
  destruct a as [r|r|e|size members]; cbn; try discriminate.
  destruct (_validate_pptx_file _) eqn:Ev; cbn; [|discriminate].
  intros [= <- <-]. eexists. split; [apply write_file_elem|].
  split; [reflexivity | exact Ev].
Qed.

(** C3, failing input: the external run exits with status 0 and a clean
    error stream and leaves an empty file named like a presentation.
    [convert_pdf_to_ppt] reports success for it although the file fails
    [_validate_pptx_file]: only the alternative strategy calls the
    validation, the primary path only looks for a file name. *)
Theorem primary_output_reported_without_validation :
  let run := convert_pdf_to_ppt "/tmp/libreoffice_processor"
                                world_empty_output sample_pdf "j1" in
  strategies run = [Primary]
  /\ is_success (returned run) = true
  /\ (fsize <$> delivered run) = Some 0
  /\ (_validate_pptx_file <$> delivered run) = Some false.
Proof. vm_compute. repeat split. Qed.

End ConversionPipeline.

(** ** The rate governor *)

Section RateLimiting.
Import RateGovernor.

Lemma lookup_ensure_identifier identifier rl other hour :
  (ensure_identifier identifier rl !! other ≫= fun per_hour => per_hour !! hour)
  = (rl !! other ≫= fun per_hour => per_hour !! hour).
Proof.
  unfold ensure_identifier. destruct (rl !! identifier) eqn:E; [reflexivity|].
  destruct (decide (identifier = other)) as [<-|Hne].
  - rewrite lookup_insert_eq, E. cbn. apply lookup_empty.
  - now rewrite lookup_insert_ne.
Qed.

Lemma check_rate_limit_info self now identifier limit :
  (check_rate_limit self now identifier limit).1
  = let b := current_bucket self now identifier in
    let remaining := Z.max 0 (limit - count b) in
    mkInfo remaining limit (reset_time b)
           (if remaining =? 0
            then Some (int_total_seconds (reset_time b - now)) else None).
Proof.
  unfold check_rate_limit, current_bucket, bucket. cbn.
  now rewrite lookup_ensure_identifier.
Qed.

Lemma check_rate_limit_buckets self now identifier limit :
  same_buckets (check_rate_limit self now identifier limit).2 self.
Proof.
  intros other hour. unfold check_rate_limit, bucket. cbn.
  apply lookup_ensure_identifier.
Qed.

Lemma bucket_consume self now identifier other hour :
  bucket (consume_rate_limit self now identifier) other hour
  = if decide (other = identifier /\ hour = hour_key now)
    then let b := current_bucket self now identifier in
         Some (mkBucket (count b + 1) (reset_time b))
    else bucket self other hour.
Proof.
  unfold consume_rate_limit, current_bucket, bucket. cbn.
  destruct (decide (other = identifier)) as [->|Hne].
  - rewrite lookup_insert_eq. cbn.
    pose proof (lookup_ensure_identifier identifier (rate_limits self)
                  identifier) as Hsame.
    destruct (ensure_identifier identifier (rate_limits self) !! identifier)
      as [per_hour|] eqn:E; cbn in Hsame |- *.
    + destruct (decide (hour = hour_key now)) as [->|Hh].
      * rewrite decide_True by done. rewrite <- Hsame.
        destruct (per_hour !! hour_key now) as [b|] eqn:Eb; cbn.
        -- rewrite lookup_alter_eq, Eb. reflexivity.
        -- rewrite lookup_alter_eq, lookup_insert_eq. reflexivity.
      * rewrite decide_False by tauto. rewrite <- Hsame.
        destruct (per_hour !! hour_key now) as [b|] eqn:Eb; cbn.
        -- now rewrite lookup_alter_ne.
        -- rewrite lookup_alter_ne by done. now rewrite lookup_insert_ne.
    + exfalso. unfold ensure_identifier in E.
      destruct (rate_limits self !! identifier) eqn:E'.
      * congruence.
      * rewrite lookup_insert_eq in E. discriminate.
  - rewrite decide_False by tauto.
    rewrite lookup_insert_ne by done. apply lookup_ensure_identifier.
Qed.

Lemma consume_same_buckets a b now identifier :
  same_buckets a b ->
  same_buckets (consume_rate_limit a now identifier)
               (consume_rate_limit b now identifier).
Proof.
  intros Hab other hour. rewrite !bucket_consume.
  unfold current_bucket. now rewrite !Hab.
Qed.

Lemma check_same_buckets a b now identifier limit :
  same_buckets a b ->
  (check_rate_limit a now identifier limit).1
  = (check_rate_limit b now identifier limit).1
  /\ same_buckets (check_rate_limit a now identifier limit).2
                  (check_rate_limit b now identifier limit).2.
Proof.
  intros Hab. split.
  - rewrite !check_rate_limit_info. unfold current_bucket. now rewrite Hab.
  - intros other hour. rewrite !check_rate_limit_buckets. apply Hab.
Qed.

Lemma calls_same_buckets cs a b :
  same_buckets a b ->
  (calls cs a).1 = (calls cs b).1
  /\ same_buckets (calls cs a).2 (calls cs b).2.
Proof.
  revert a b. induction cs as [|c cs IH]; intros a b Hab; [now split|].
  cbn [calls].
  destruct c as [now identifier limit | now identifier]; cbn [call].
  - destruct (check_same_buckets a b now identifier limit Hab) as [Hr Hs].
    destruct (check_rate_limit a now identifier limit) as [ra a'].
    destruct (check_rate_limit b now identifier limit) as [rb b'].
    cbn in Hr, Hs. subst rb.
    destruct (IH a' b' Hs) as [Hrs Hfinal].
    destruct (calls cs a') as [rsa a2], (calls cs b') as [rsb b2].
    cbn in *. now subst.
  - pose proof (consume_same_buckets a b now identifier Hab) as Hs.
    destruct (IH _ _ Hs) as [Hrs Hfinal].
    destruct (calls cs (consume_rate_limit a now identifier)) as [rsa a2].
    destruct (calls cs (consume_rate_limit b now identifier)) as [rsb b2].
    cbn in *. now subst.
Qed.

(** What a check does write: the table of an identifier it has not seen
    before, empty, and a security event when nothing remains. *)
Lemma check_rate_limit_writes self now identifier limit :
  let r := check_rate_limit self now identifier limit in
  rate_limits r.2 = ensure_identifier identifier (rate_limits self)
  /\ security_events r.2
     = if requests_remaining r.1 =? 0
       then security_events self
            ++ [mkEvent "rate_limit_exceeded" identifier limit]
       else security_events self.
Proof. split; reflexivity. Qed.

(** C8: a check changes no bucket: every identifier keeps, for every
    hour, exactly the bucket it had (none created, no count modified);
    and whatever checks and consumptions follow, they give the same
    answers and end with the same buckets as if the check had not been
    made. *)
Theorem check_rate_limit_read_only self now identifier limit :
  let self' := (check_rate_limit self now identifier limit).2 in
  (forall other hour, bucket self' other hour = bucket self other hour)
  /\ (forall cs,
        (calls cs self').1 = (calls cs self).1
        /\ (forall other hour,
              bucket (calls cs self').2 other hour
              = bucket (calls cs self).2 other hour)).
Proof.
  intros self'. split.
  - apply check_rate_limit_buckets.
  - intros cs. apply calls_same_buckets, check_rate_limit_buckets.
Qed.

Lemma bucket_consume_all self times identifier hour :
  Forall (fun t => hour_key t = hour) times ->
  bucket (consume_all self times identifier) identifier hour
  = match times with
    | [] => bucket self identifier hour
    | _ :: _ =>
        let b := default (mkBucket 0 ((hour + 1) * us_per_hour))
                         (bucket self identifier hour) in
        Some (mkBucket (count b + Z.of_nat (length times)) (reset_time b))
    end.
Proof.
  intros Hhour. revert self.
  induction Hhour as [|t times Ht Hrest IH]; intros self; [reflexivity|].
  cbn [consume_all fold_left]. fold (consume_all (consume_rate_limit self t identifier) times identifier).
  rewrite IH. rewrite bucket_consume, decide_True by (split; congruence).
  unfold current_bucket, next_hour. rewrite Ht.
  destruct (bucket self identifier hour) as [b|];
    destruct times as [|t' times'];
    cbn -[Z.of_nat Z.add Z.mul length]; f_equal; f_equal;
    rewrite ?length_cons, ?Nat2Z.inj_succ; cbn; lia.
Qed.

Lemma bucket_consume_all_other self times identifier hour :
  Forall (fun t => hour_key t <> hour) times ->
  bucket (consume_all self times identifier) identifier hour
  = bucket self identifier hour.
Proof.
  intros Hhour. revert self.
  induction Hhour as [|t times Ht Hrest IH]; intros self; [reflexivity|].
  cbn [consume_all fold_left]. fold (consume_all (consume_rate_limit self t identifier) times identifier).
  rewrite IH. rewrite bucket_consume, decide_False; [reflexivity|].
  intros [_ Heq]. congruence.
Qed.

(** The start of the next hour lies ahead, at most an hour away. *)
Lemma next_hour_ahead now : 0 < next_hour now - now <= us_per_hour.
Proof.
  unfold next_hour, hour_key.
  assert (Hpos : 0 < us_per_hour) by reflexivity.
  pose proof (Z.mul_div_le now us_per_hour Hpos).
  pose proof (Z.mul_succ_div_gt now us_per_hour Hpos).
  lia.
Qed.

(** C7, counterexample: one request allowed, one consumed at the start
    of the hour, checked half a second before the hour ends: no request
    remains and the reported retry-after is 0, not a positive number. *)
Lemma retry_after_zero_in_last_second :
  ~ (forall self now identifier limit times,
        bucket self identifier (hour_key now) = None ->
        Forall (fun t => hour_key t = hour_key now) times ->
        limit = Z.of_nat (length times) ->
        exists r,
          retry_after
            (check_rate_limit (consume_all self times identifier)
                              now identifier limit).1
          = Some r
          /\ 0 < r).
Proof.
  intros H.
  destruct (H empty_auth 3599500000 "api_key:k1" 1 [0])
    as (r & Hr & Hpos).
  - reflexivity.
  - repeat constructor.
  - reflexivity.
  - vm_compute in Hr. injection Hr as <-. lia.
Qed.

(** C7, amended: a check reports remaining = max(0, limit - count) for
    the current hour bucket (count 0 when there is none); a consumption
    adds one to the count of the current bucket, creating the bucket if
    absent; after exactly [limit] consumptions within one hour, starting
    with no bucket for it, a check in that hour reports remaining = 0
    and a retry-after equal to the whole seconds left until the start of
    the next hour, which is never negative and is positive whenever at
    least one full second is left; a check in a later hour that has no
    bucket yet reports remaining = limit, for a limit that is not
    negative. *)
Theorem rate_governor_arithmetic self now identifier limit :
  let info := (check_rate_limit self now identifier limit).1 in
  let hour := hour_key now in
  requests_remaining info = Z.max 0 (limit - consumed self identifier hour)
  /\ consumed (consume_rate_limit self now identifier) identifier hour
     = consumed self identifier hour + 1
  /\ is_Some (bucket (consume_rate_limit self now identifier) identifier hour)
  /\ (forall times,
        bucket self identifier hour = None ->
        Forall (fun t => hour_key t = hour) times ->
        limit = Z.of_nat (length times) ->
        let info' :=
          (check_rate_limit (consume_all self times identifier)
                            now identifier limit).1 in
        requests_remaining info' = 0
        /\ retry_after info'
           = Some (int_total_seconds (next_hour now - now))
        /\ 0 <= int_total_seconds (next_hour now - now)
        /\ (us_per_second <= next_hour now - now ->
            0 < int_total_seconds (next_hour now - now)))
  /\ (forall times later,
        bucket self identifier (hour_key later) = None ->
        Forall (fun t => hour_key t = hour) times ->
        hour_key later <> hour ->
        0 <= limit ->
        requests_remaining
          (check_rate_limit (consume_all self times identifier)
                            later identifier limit).1
        = limit).
Proof.
  intros info hour. subst info.
  split; [|split; [|split; [|split]]].
  - rewrite check_rate_limit_info. cbn. unfold current_bucket, consumed.
    fold hour. now destruct (bucket self identifier hour).
  - unfold consumed. rewrite bucket_consume, decide_True by done.
    cbn. unfold current_bucket. fold hour.
    now destruct (bucket self identifier hour).
  - rewrite bucket_consume, decide_True by done. eauto.
  - intros times Hnone Hsame Hlimit info'. subst info'.
    rewrite check_rate_limit_info. cbn zeta.
    assert (Hb : current_bucket (consume_all self times identifier)
                                now identifier
                 = mkBucket limit (next_hour now)).
    { unfold current_bucket. fold hour.
      rewrite (bucket_consume_all _ _ _ hour Hsame), Hnone.
      destruct times; cbn in Hlimit |- *; subst limit; reflexivity. }
    rewrite Hb. cbn [count reset_time requests_remaining retry_after].
    replace (limit - limit) with 0 by lia. cbn.
    pose proof (next_hour_ahead now) as [Hpos _].
    repeat split.
    + apply Z.quot_pos; [lia | reflexivity].
    + intros Hsecond. apply Z.quot_str_pos. unfold us_per_second in *. lia.
  - intros times later Hnone Hsame Hlater Hlimit.
    rewrite check_rate_limit_info. cbn zeta.
    unfold current_bucket.
    rewrite bucket_consume_all_other, Hnone.
    + cbn. lia.
    + eapply Forall_impl; [exact Hsame|]. cbn. intros t Ht. congruence.
Qed.

Lemma rate_governor_arithmetic_witness :
  requests_remaining
    (check_rate_limit (consume_all empty_auth [0; 1500000; 3000000]
                                   "api_key:k1")
                      3599500000 "api_key:k1" 3).1
  = 0.
Proof.
  apply (proj1 (proj2 (proj2 (proj2
           (rate_governor_arithmetic empty_auth 3599500000 "api_key:k1" 3))))
           [0; 1500000; 3000000]).
  - reflexivity.
  - repeat constructor.
  - reflexivity.
Defined.

End RateLimiting.

(** ** What the registry shows *)

(** Running the coroutine inside a hypothesis [E : run = (log, st, r)],
    so that the goal is evaluated once, on the result. *)
Ltac split_on_stuck_match_in E :=
  match type of E with
  | context [match ?b with _ => _ end] =>
      lazymatch b with
      | context [match _ with _ => _ end] => fail
      | _ => destruct b eqn:?
      end
  end.

Ltac evaluate_in E :=
  cbv -[Z.sub or_int or_str append] in E;
  repeat (split_on_stuck_match_in E; cbv -[Z.sub or_int or_str append] in E).

Ltac close_facts :=
  repeat match goal with
         | |- _ /\ _ => split
         | |- Forall _ [] => apply List.Forall_nil
         | |- Forall _ (_ :: _) => apply List.Forall_cons
         | |- _ = _ => first [reflexivity | congruence]
         end.

Section RegistryFacts.
Import Scheduler Registry Invariants.

(** One run of the body on a record as [create_job] made it. *)
Lemma process_body_facts temp self env s :
  untouched (st_job s) ->
  body_facts self env s (process_body temp self env s).
Proof.
  destruct s as [[? ? ? [op ? ? compliance] ? ? ? ? ? ? ? ? ?] [? ? ? ? ? ?]],
           self as [mupdf pdfium], env as [? ? ? ? ? ? ? ?].
  unfold untouched, submitted.
  cbn [st_job id filename file_path options status progress created_at
       started_at completed_at processing_time_ms file_size_bytes result error].
  intros [= -> -> -> -> -> -> ->].
  match goal with
  | |- body_facts _ _ _ ?r => destruct r as [[log st] r'] eqn:E
  end.
  revert E. run_up_to_dispatch.
  match goal with
  | |- context [dispatch ?t ?s ?e op] =>
      destruct (dispatch_cases t s e op) as [H|[H|[H|[H|H]]]];
      rewrite H; clear H
  end;
  destruct compliance, mupdf, pdfium; intros E; evaluate_in E;
  injection E as <- <- <-; cbv -[Z.sub or_int or_str append]; close_facts.
Qed.

Lemma is_none_spec {A} (o : option A) : is_none o = true -> o = None.
Proof. destruct o; [discriminate | reflexivity]. Qed.

Lemma is_some_spec {A} (o : option A) : is_some o = true -> is_Some o.
Proof. destruct o; [eauto | discriminate]. Qed.

Lemma in_range_spec v : in_range v = true -> 0 <= v <= 100.
Proof. unfold in_range. rewrite andb_true_iff, !Z.leb_le. tauto. Qed.

Lemma running_b_spec j : running_b j = true -> running j.
Proof.
  unfold running_b, running. rewrite !andb_true_iff, bool_decide_eq_true.
  intros [[[[[? ?] ?] ?] ?] ?].
  auto 10 using @is_none_spec, @is_some_spec.
Qed.

Lemma settled_b_spec j : settled_b j = true -> settled j.
Proof.
  unfold settled_b, settled. rewrite !andb_true_iff.
  intros [[[Hs Hc] Hp] Hrest].
  split; [now apply is_some_spec|]. split; [now apply is_some_spec|].
  split; [now apply in_range_spec|].
  destruct (status j); try discriminate.
  - left. rewrite !andb_true_iff, Z.eqb_eq in Hrest.
    destruct Hrest as [[[? ?] ?] ?].
    auto 10 using @is_none_spec, @is_some_spec.
  - right. rewrite !andb_true_iff in Hrest.
    destruct Hrest as [[? ?] ?].
    auto 10 using @is_none_spec, @is_some_spec.
Qed.

Lemma forallb_Forall {A} (f : A -> bool) (P : A -> Prop) (l : list A) :
  (forall x, f x = true -> P x) -> forallb f l = true -> Forall P l.
Proof.
  intros Hf. induction l as [|x l IH]; cbn; intros H; constructor.
  - apply Hf. now apply andb_prop in H as [? _].
  - apply IH. now apply andb_prop in H as [_ ?].
Qed.

Lemma range_checks log pf :
  forallb in_range (progress_of log ++ [pf]) = true ->
  Forall (fun e => 0 <= progress (event_job e) <= 100) log /\ 0 <= pf <= 100.
Proof.
  induction log as [|e log IH]; cbn.
  - rewrite andb_true_r. intros H. split; [constructor | now apply in_range_spec].
  - intros H. apply andb_prop in H as [He Hrest].
    destruct (IH Hrest) as [Hlog Hpf]. split; [|exact Hpf].
    constructor; [now apply in_range_spec | exact Hlog].
Qed.

(** A chain of progress values ends no lower than it starts. *)
Lemma ascending_ends a l b :
  adjacent Z.leb (a :: l ++ [b]) = true -> a <= b.
Proof.
  revert a. induction l as [|x l IH]; intros a H.
  - cbn in H. rewrite andb_true_r in H. now apply Z.leb_le.
  - change (adjacent Z.leb (a :: (x :: l) ++ [b]))
      with ((a <=? x) && adjacent Z.leb (x :: l ++ [b])) in H.
    apply andb_prop in H as [Hax Hrest]. apply Z.leb_le in Hax.
    specialize (IH x Hrest). lia.
Qed.

Lemma untouched_progress j : untouched j -> progress j = 0.
Proof. intros ->. reflexivity. Qed.

(** The run of the body on an untouched record is a well-formed run. *)
Lemma body_run_ok temp self env j m :
  untouched j ->
  run_ok j (process_body temp self env (mkState j m)).1.1
         (st_job (process_body temp self env (mkState j m)).1.2).
Proof.
  intros Hj.
  destruct (process_body_facts temp self env (mkState j m) Hj)
    as (Hsusp & Hset & Hasc & Hrange & Hframe & Hfin & _).
  destruct (range_checks _ _ Hrange) as [Hlog Hpf].
  split.
  - eapply forallb_Forall; [|exact Hsusp].
    intros e He Hs. unfold suspended_running in He. rewrite Hs in He.
    now apply running_b_spec.
  - exact Hframe.
  - now apply settled_b_spec.
  - exact Hfin.
  - now rewrite (untouched_progress j Hj).
  - exact Hlog.
  - exact Hpf.
Qed.

(** Running a well-formed log on to its next suspension point. *)
Lemma run_ok_next j log fin j' rest :
  run_ok j log fin ->
  next_suspension log = Some (j', rest) ->
  running j' /\ 0 <= progress j' <= 100
  /\ run_ok j' rest fin
  /\ submitted j' = submitted j /\ progress j <= progress j'.
Proof.
  revert j. induction log as [|e log IH]; intros j Hrun Hnext; [discriminate|].
  destruct Hrun as [Hsusp Hframe Hset Hfin Hasc Hrange Hpf].
  apply List.Forall_cons_iff in Hsusp as [He Hsusp].
  apply List.Forall_cons_iff in Hframe as [Hfe Hframe].
  apply List.Forall_cons_iff in Hrange as [Hre Hrange].
  change (adjacent Z.leb (progress j :: progress_of (e :: log) ++ [progress fin]))
    with ((progress j <=? progress (event_job e))
          && adjacent Z.leb (progress (event_job e)
                             :: progress_of log ++ [progress fin])) in Hasc.
  apply andb_prop in Hasc as [Hle Hasc]. apply Z.leb_le in Hle.
  assert (Hsub : run_ok (event_job e) log fin).
  { split; auto.
    - eapply Forall_impl; [exact Hframe|]. cbn. intros x Hx. congruence.
    - congruence. }
  destruct e as [w|x]; cbn [next_suspension] in Hnext.
  - destruct (IH w Hsub Hnext) as (Hr & Hp & Hok & Hs & Hle').
    cbn [event_job] in *.
    split; [exact Hr|]. split; [exact Hp|]. split; [exact Hok|].
    split; [congruence | lia].
  - injection Hnext as <- <-. cbn [event_job] in *.
    split; [now apply He|]. split; [exact Hre|]. split; [exact Hsub|].
    split; [exact Hfe | exact Hle].
Qed.

(** The final record of a well-formed run. *)
Lemma run_ok_end j log fin :
  run_ok j log fin ->
  settled fin /\ submitted fin = submitted j
  /\ progress j <= progress fin /\ 0 <= progress fin <= 100.
Proof.
  intros [Hsusp Hframe Hset Hfin Hasc Hrange Hpf].
  split; [exact Hset|]. split; [exact Hfin|].
  split; [eapply ascending_ends, Hasc | exact Hpf].
Qed.

End RegistryFacts.

Section RegistryInvariant.
Import Scheduler Registry Invariants.

Lemma is_Some_insert_present {A} (m : gmap string A) i x k :
  is_Some (m !! i) -> is_Some (<[i := x]> m !! k) <-> is_Some (m !! k).
Proof.
  intros Hi. destruct (decide (k = i)) as [->|Hne].
  - rewrite lookup_insert_eq. split; eauto.
  - now rewrite lookup_insert_ne.
Qed.

Lemma registry_invariant_initial temp eng configured :
  registry_invariant (initial temp eng configured).
Proof.
  split; cbn.
  - intros job_id. rewrite lookup_empty. split.
    + intros H. inversion H.
    + intros [x Hx]. discriminate.
  - intros job_id. rewrite !lookup_empty. split; intros [x Hx]; discriminate.
  - intros job_id H. exfalso. revert H. apply not_elem_of_empty.
  - intros job_id j H. rewrite lookup_empty in H. discriminate.
  - intros job_id rest st H. rewrite lookup_empty in H. discriminate.
  - intros job_id j H. rewrite lookup_empty in H. discriminate.
Qed.

(** Running coroutine [job_id] on, from a state where every other job
    satisfies the invariant and this one has a well-formed run ahead. *)
Lemma run_on_registry job_id log st s j :
  (forall k, k ∈ tasks (service s) <-> is_Some (jobs (service s) !! k)) ->
  (forall k, is_Some (jobs (service s) !! k)
             <-> is_Some (metrics (service s) !! k)) ->
  (forall k, k ∈ started s -> is_Some (jobs (service s) !! k)) ->
  job_id ∈ started s ->
  jobs (service s) !! job_id = Some j ->
  run_ok j log (st_job st) ->
  (forall k jk, jobs (service s) !! k = Some jk -> k ∉ started s ->
                untouched jk) ->
  (forall k rest' st', k <> job_id -> inside s !! k = Some (rest', st') ->
     exists jk, jobs (service s) !! k = Some jk
                /\ running jk /\ 0 <= progress jk <= 100
                /\ run_ok jk rest' (st_job st')) ->
  (forall k jk, k <> job_id -> jobs (service s) !! k = Some jk ->
                k ∈ started s -> inside s !! k = None -> settled jk) ->
  registry_invariant (run_on job_id log st s).
Proof.
  intros Htasks Hmetrics Hstarted Hin Hj Hrun Hwait Hinside Hdone.
  assert (Hpresent : is_Some (jobs (service s) !! job_id)) by eauto.
  unfold run_on, store_job, store_final.
  destruct (next_suspension log) as [[j' rest]|] eqn:Hnext; split; cbn.
  - intros k. rewrite is_Some_insert_present by done. apply Htasks.
  - intros k. rewrite is_Some_insert_present by done. apply Hmetrics.
  - intros k Hk. rewrite is_Some_insert_present by done. auto.
  - intros k jk Hk Hnot. destruct (decide (k = job_id)) as [->|Hne]; [done|].
    rewrite lookup_insert_ne in Hk by done. eauto.
  - intros k rest' st' Hk. destruct (decide (k = job_id)) as [->|Hne].
    + rewrite lookup_insert_eq in Hk. injection Hk as <- <-.
      rewrite lookup_insert_eq. exists j'.
      destruct (run_ok_next _ _ _ _ _ Hrun Hnext) as (Hr & Hp & Hok & _).
      auto.
    + rewrite lookup_insert_ne in Hk by done.
      rewrite lookup_insert_ne by done. eauto.
  - intros k jk Hk Hs Hout. destruct (decide (k = job_id)) as [->|Hne].
    + rewrite lookup_insert_eq in Hout. discriminate.
    + rewrite lookup_insert_ne in Hk by done.
      rewrite lookup_insert_ne in Hout by done. eauto.
  - intros k. rewrite is_Some_insert_present by done. apply Htasks.
  - intros k. destruct (decide (k = job_id)) as [->|Hne].
    + rewrite !lookup_insert_eq. split; eauto.
    + rewrite !lookup_insert_ne by done. apply Hmetrics.
  - intros k Hk. rewrite is_Some_insert_present by done. auto.
  - intros k jk Hk Hnot. destruct (decide (k = job_id)) as [->|Hne]; [done|].
    rewrite lookup_insert_ne in Hk by done. eauto.
  - intros k rest' st' Hk. destruct (decide (k = job_id)) as [->|Hne].
    + rewrite lookup_delete_eq in Hk. discriminate.
    + rewrite lookup_delete_ne in Hk by done.
      rewrite lookup_insert_ne by done. eauto.
  - intros k jk Hk Hs Hout. destruct (decide (k = job_id)) as [->|Hne].
    + rewrite lookup_insert_eq in Hk. injection Hk as <-.
      now destruct (run_ok_end _ _ _ Hrun).
    + rewrite lookup_insert_ne in Hk by done.
      rewrite lookup_delete_ne in Hout by done. eauto.
Qed.

Lemma new_job_untouched cenv path opts : untouched (new_job cenv path opts).
Proof. reflexivity. Qed.

Lemma step_registry c s s' :
  gate_invariant c s -> registry_invariant s -> step s s' ->
  registry_invariant s'.
Proof.
  intros [_ Hgate _ _] [Htasks Hmetrics Hstarted Hwait Hinside Hdone] Hstep.
  destruct Hstep as [s cenv path opts Hfresh
                    | s n job_id job m env Htask Hnew Hpermits Hjob Hm
                    | s n job_id Htask Hnew Hpermits Hmissing
                    | s job_id rest st Hin].
  - (* submission *)
    assert (Hother : forall k, is_Some (jobs (service s) !! k) ->
                               k <> uuid4 cenv).
    { intros k [x Hx] ->. congruence. }
    split; cbn.
    + intros k. rewrite elem_of_app, list_elem_of_singleton, Htasks.
      rewrite lookup_insert_is_Some. split.
      * intros [H| ->]; [|left; reflexivity].
        destruct (decide (uuid4 cenv = k)); [left | right]; auto.
      * intros [<-|[_ H]]; [right; reflexivity | left; exact H].
    + intros k. rewrite !lookup_insert_is_Some, Hmetrics. tauto.
    + intros k Hk. rewrite lookup_insert_is_Some. right.
      split; [|auto]. intros <-. apply Hstarted in Hk as [x Hx]. congruence.
    + intros k jk Hk Hnot. destruct (decide (k = uuid4 cenv)) as [->|Hne].
      * rewrite lookup_insert_eq in Hk. injection Hk as <-.
        apply new_job_untouched.
      * rewrite lookup_insert_ne in Hk by done. eauto.
    + intros k rest st Hk. destruct (Hinside k rest st Hk) as (jk & Hjk & Hrest).
      exists jk. split; [|exact Hrest].
      rewrite lookup_insert_ne; [exact Hjk|]. intros <-. congruence.
    + intros k jk Hk Hs Hout. destruct (decide (k = uuid4 cenv)) as [->|Hne].
      * apply Hstarted in Hs as [x Hx]. congruence.
      * rewrite lookup_insert_ne in Hk by done. eauto.
  - (* a coroutine goes past the semaphore *)
    pose proof (body_run_ok (temp_dir (service s)) (engines (service s)) env
                  job m (Hwait _ _ Hjob Hnew)) as Hrun.
    destruct (process_body _ _ _ _) as [[log st] r].
    cbn [fst snd] in Hrun.
    apply run_on_registry with job; cbn;
      [exact Htasks | exact Hmetrics | | | exact Hjob | exact Hrun | | | ].
    + intros k Hk. apply elem_of_union in Hk as [Hk|Hk]; [|auto].
      apply elem_of_singleton in Hk as ->. eauto.
    + apply elem_of_union. left. now apply elem_of_singleton.
    + intros k jk Hk Hnot. apply (Hwait k jk Hk).
      intros Hs. apply Hnot, elem_of_union. now right.
    + intros k rest' st' _ Hk. eauto.
    + intros k jk Hne Hk Hs Hout. apply (Hdone k jk Hk); [|exact Hout].
      apply elem_of_union in Hs as [Hs|Hs]; [|exact Hs].
      apply elem_of_singleton in Hs. contradiction.
  - (* no job or no metrics: cannot happen *)
    exfalso. apply Htasks in Htask.
    destruct Hmissing as [Hnone|Hnone].
    + destruct Htask as [x Hx]. congruence.
    + apply Hmetrics in Htask as [x Hx]. congruence.
  - (* resumption *)
    destruct (Hinside _ _ _ Hin) as (j & Hj & Hr & Hp & Hrun).
    apply run_on_registry with j;
      [exact Htasks | exact Hmetrics | exact Hstarted | | exact Hj
      | exact Hrun | exact Hwait | | ].
    + apply Hgate. eauto.
    + intros k rest' st' _ Hk. eauto.
    + intros k jk _ Hk Hs Hout. eauto.
Qed.

Lemma reachable_registry temp eng configured s :
  reachable temp eng configured s -> registry_invariant s.
Proof.
  unfold reachable. intros Hreach.
  eapply (rtc_ind_r (fun s => rtc step (initial temp eng configured) s
                              /\ registry_invariant s));
    [ | | exact Hreach].
  - split; [apply rtc_refl | apply registry_invariant_initial].
  - intros s1 s2 _ Hstep [Hr IH]. split; [eapply rtc_r; eauto|].
    eapply step_registry; [|exact IH|exact Hstep].
    apply (reachable_invariant temp eng configured), Hr.
Qed.

End RegistryInvariant.

Section RegistryTheorems.
Import Scheduler Registry Invariants.

(** Every record of a reachable registry has one of the three shapes. *)
Lemma registry_shapes temp eng configured s job_id j :
  reachable temp eng configured s ->
  jobs (service s) !! job_id = Some j ->
  untouched j \/ (running j /\ 0 <= progress j <= 100) \/ settled j.
Proof.
  intros Hreach Hj.
  destruct (reachable_registry _ _ _ _ Hreach)
    as [_ _ _ Hwait Hinside Hdone].
  destruct (decide (job_id ∈ started s)) as [Hs|Hs]; [|left; eauto].
  right. destruct (inside s !! job_id) as [[rest st]|] eqn:E.
  - left. destruct (Hinside _ _ _ E) as (j' & Hj' & Hr & Hp & _).
    assert (j' = j) as -> by congruence. auto.
  - right. eauto.
Qed.

Lemma is_Some_None_iff {A} (o : option A) : o = None -> is_Some o <-> False.
Proof. intros ->. split; [intros [x Hx]; discriminate | tauto]. Qed.

(** X1: A job shown as QUEUED is exactly as it was submitted: no progress,
    no timestamps but [created_at], no result and no error. *)
Theorem queued_job_as_submitted temp eng configured s job_id j :
  reachable temp eng configured s ->
  get_job_status (service s) job_id = Some j ->
  status j = QUEUED ->
  progress j = 0 /\ started_at j = None /\ completed_at j = None
  /\ processing_time_ms j = None /\ result j = None /\ error j = None
  /\ get_job_result (service s) job_id = None.
Proof.
  intros Hreach Hj Hq. unfold get_job_status in Hj.
  unfold get_job_result. rewrite Hj.
  destruct (registry_shapes _ _ _ _ _ _ Hreach Hj)
    as [Hu|[[(Hst & _) _]|(_ & _ & _ & [(Hst & _)|(Hst & _)])]];
    try congruence.
  rewrite Hu. cbn. auto 10.
Qed.



(** Running coroutine [job_id] on leaves every other record alone. *)
Lemma run_on_other job_id log st s k :
  k <> job_id ->
  jobs (service (run_on job_id log st s)) !! k = jobs (service s) !! k.
Proof.
  intros Hne. unfold run_on.
  destruct (next_suspension log) as [[j rest]|]; cbn;
    now rewrite lookup_insert_ne.
Qed.

(** ... and moves its own record forward along a well-formed run. *)
Lemma run_on_self job_id log st s j :
  run_ok j log (st_job st) ->
  exists j',
    jobs (service (run_on job_id log st s)) !! job_id = Some j'
    /\ submitted j' = submitted j /\ progress j <= progress j'.
Proof.
  intros Hrun. unfold run_on.
  destruct (next_suspension log) as [[j' rest]|] eqn:Hnext; cbn;
    rewrite lookup_insert_eq; eexists; (split; [reflexivity|]).
  - destruct (run_ok_next _ _ _ _ _ Hrun Hnext) as (_ & _ & _ & Hs & Hp).
    auto.
  - destruct (run_ok_end _ _ _ Hrun) as (_ & Hs & Hp & _). auto.
Qed.

(** One step of the event loop, seen from one record. *)
Lemma step_record temp eng configured s s' job_id j :
  reachable temp eng configured s ->
  step s s' ->
  jobs (service s) !! job_id = Some j ->
  exists j',
    jobs (service s') !! job_id = Some j'
    /\ submitted j' = submitted j
    /\ progress j <= progress j'
    /\ (is_outcome (status j) = true -> j' = j).
Proof.
  intros Hreach Hstep Hj.
  pose proof (reachable_invariant _ _ _ _ Hreach) as [_ Hgate _ _].
  pose proof (reachable_registry _ _ _ _ Hreach)
    as [_ _ _ Hwait Hinside _].
  assert (Hsame : exists j', Some j = Some j' /\ submitted j' = submitted j
                        /\ progress j <= progress j'
                        /\ (is_outcome (status j) = true -> j' = j)).
  { exists j. repeat split; auto. lia. }
  destruct Hstep as [s cenv path opts Hfresh
                    | s n k job m env Htask Hnew Hpermits Hjob Hm
                    | s n k Htask Hnew Hpermits Hmissing
                    | s k rest st Hin].
  - cbn. rewrite lookup_insert_ne, Hj; [exact Hsame|]. congruence.
  - pose proof (body_run_ok (temp_dir (service s)) (engines (service s)) env
                  job m (Hwait _ _ Hjob Hnew)) as Hrun.
    destruct (process_body _ _ _ _) as [[log st] r]. cbn [fst snd] in Hrun.
    destruct (decide (job_id = k)) as [->|Hne].
    + assert (job = j) as -> by congruence.
      destruct (run_on_self k log st
                  (mkSystem (service s) n ({[k]} ∪ started s) (inside s))
                  j Hrun) as (j' & Hj' & Hs & Hp).
      exists j'. repeat split; auto.
      rewrite (Hwait _ _ Hj Hnew). discriminate.
    + rewrite run_on_other by done. cbn. rewrite Hj. exact Hsame.
  - cbn. rewrite Hj. exact Hsame.
  - destruct (decide (job_id = k)) as [->|Hne].
    + destruct (Hinside _ _ _ Hin) as (j0 & Hj0 & Hr & _ & Hrun).
      assert (j0 = j) as -> by congruence.
      destruct (run_on_self k rest st s j Hrun) as (j' & Hj' & Hs & Hp).
      exists j'. repeat split; auto.
      destruct Hr as [Hst _]. rewrite Hst. discriminate.
    + rewrite run_on_other by done. rewrite Hj. exact Hsame.
Qed.

Lemma steps_record temp eng configured s s' job_id j :
  reachable temp eng configured s ->
  rtc step s s' ->
  jobs (service s) !! job_id = Some j ->
  exists j',
    jobs (service s') !! job_id = Some j'
    /\ submitted j' = submitted j
    /\ progress j <= progress j'
    /\ (is_outcome (status j) = true -> j' = j).
Proof.
  intros Hreach Hsteps. revert j.
  induction Hsteps as [s|s s1 s2 Hstep Hsteps IH]; intros j Hj.
  - exists j. repeat split; auto. lia.
  - destruct (step_record _ _ _ _ _ _ _ Hreach Hstep Hj)
      as (j1 & Hj1 & Hs1 & Hp1 & Hf1).
    assert (Hreach1 : reachable temp eng configured s1).
    { unfold reachable in *. eapply rtc_r; eauto. }
    destruct (IH Hreach1 j1 Hj1) as (j2 & Hj2 & Hs2 & Hp2 & Hf2).
    exists j2. split; [exact Hj2|]. split; [congruence|]. split; [lia|].
    intros Hout. specialize (Hf1 Hout). subst j1. auto.
Qed.


(** X5: No job is ever removed from the registry, and what was submitted
    never changes: at any later time the job is still there with the
    same id, file name, path, options, creation time and file size. *)
Theorem registry_keeps_submissions temp eng configured s s' job_id j :
  reachable temp eng configured s ->
  rtc step s s' ->
  get_job_status (service s) job_id = Some j ->
  exists j',
    get_job_status (service s') job_id = Some j'
    /\ id j' = id j /\ filename j' = filename j
    /\ file_path j' = file_path j /\ options j' = options j
    /\ created_at j' = created_at j
    /\ file_size_bytes j' = file_size_bytes j.
Proof.
  intros Hreach Hsteps Hj. unfold get_job_status in *.
  destruct (steps_record _ _ _ _ _ _ _ Hreach Hsteps Hj)
    as (j' & Hj' & Hs & _).
  exists j'. split; [exact Hj'|].
  unfold submitted in Hs. injection Hs as -> -> -> -> -> ->. auto 10.
Qed.


End RegistryTheorems.

Section Slots.
Import Scheduler Registry Invariants.

(** X7: The jobs shown as PROCESSING are exactly the coroutines holding a
    slot of the semaphore: their number is the number of slots taken,
    and with the free slots it makes up the capacity. *)
Theorem processing_jobs_hold_the_slots temp eng configured s :
  reachable temp eng configured s ->
  dom (processing_jobs s) = dom (inside s)
  /\ size (processing_jobs s) = size (inside s)
  /\ (permits s + size (processing_jobs s))%nat
     = max_concurrent_jobs configured.
Proof.
  intros Hreach.
  pose proof (reachable_invariant _ _ _ _ Hreach) as [Hslots _ Hproc _].
  pose proof (reachable_registry _ _ _ _ Hreach) as [_ _ _ _ Hinside _].
  assert (Hdom : dom (processing_jobs s) = dom (inside s)).
  { apply set_eq. intros k. rewrite !elem_of_dom. unfold processing_jobs.
    split.
    - intros [j Hj]. apply map_lookup_filter_Some in Hj as [Hj Hst].
      eauto.
    - intros [[rest st] Hk].
      destruct (Hinside _ _ _ Hk) as (j & Hj & [Hst _] & _).
      exists j. apply map_lookup_filter_Some. auto. }
  split; [exact Hdom|].
  assert (Hsize : size (processing_jobs s) = size (inside s)).
  { rewrite <- !size_dom. now rewrite Hdom. }
  split; [exact Hsize | lia].
Qed.

(** X8: Every coroutine handed to the event loop finds its job and its
    metrics when it runs: the early return of [_process_job] is never
    taken.  Conversely every job of the registry has its coroutine. *)
Theorem scheduled_task_finds_its_job temp eng configured s job_id :
  reachable temp eng configured s ->
  (job_id ∈ tasks (service s) ->
   is_Some (get_job_status (service s) job_id)
   /\ is_Some (metrics (service s) !! job_id))
  /\ (is_Some (get_job_status (service s) job_id) ->
      job_id ∈ tasks (service s)).
Proof.
  intros Hreach. unfold get_job_status.
  pose proof (reachable_registry _ _ _ _ Hreach) as [Htasks Hmetrics _ _ _ _].
  split.
  - intros Hin. apply Htasks in Hin. split; [exact Hin|]. now apply Hmetrics.
  - apply Htasks.
Qed.

Lemma next_suspension_shorter log j rest :
  next_suspension log = Some (j, rest) -> (length rest < length log)%nat.
Proof.
  induction log as [|e log IH]; [discriminate|].
  destruct e as [w|x]; cbn.
  - intros H. specialize (IH H). lia.
  - intros [= <- <-]. lia.
Qed.

(** Resuming one suspended coroutine again and again brings it to its
    end: its final record is stored, its slot is given back, nothing
    else changes. *)
Lemma resume_to_end job_id (n : nat) : forall rest st s,
  (length rest <= n)%nat ->
  inside s !! job_id = Some (rest, st) ->
  exists s',
    rtc step s s'
    /\ jobs (service s') !! job_id = Some (st_job st)
    /\ (forall k, k <> job_id ->
                  jobs (service s') !! k = jobs (service s) !! k)
    /\ inside s' !! job_id = None
    /\ (forall k, k <> job_id -> inside s' !! k = inside s !! k)
    /\ permits s' = S (permits s)
    /\ started s' = started s.
Proof.
  induction n as [|n IH]; intros rest st s Hlen Hin.
  - destruct rest; [|cbn in Hlen; lia].
    exists (run_on job_id [] st s). split; [apply rtc_once, step_resume, Hin|].
    cbn. rewrite lookup_insert_eq, lookup_delete_eq.
    repeat split; auto; intros k Hk.
    + now rewrite lookup_insert_ne.
    + now rewrite lookup_delete_ne.
  - pose proof (step_resume s job_id rest st Hin) as Hstep.
    unfold run_on in *.
    destruct (next_suspension rest) as [[j rest']|] eqn:Hnext.
    + apply next_suspension_shorter in Hnext.
      set (s1 := mkSystem (store_job job_id j (service s)) (permits s)
                          (started s) (<[job_id := (rest', st)]> (inside s)))
        in *.
      destruct (IH rest' st s1) as (s' & Hsteps & Hj & Hjobs & Hout & Hins
                                   & Hp & Hs).
      * lia.
      * cbn. apply lookup_insert_eq.
      * exists s'. split; [eapply rtc_l; eauto|].
        split; [exact Hj|]. split.
        { intros k Hk. rewrite (Hjobs k Hk). cbn. now rewrite lookup_insert_ne. }
        split; [exact Hout|]. split.
        { intros k Hk. rewrite (Hins k Hk). cbn. now rewrite lookup_insert_ne. }
        auto.
    + eexists. split; [apply rtc_once, Hstep|].
      cbn. rewrite lookup_insert_eq, lookup_delete_eq.
      repeat split; auto; intros k Hk.
      * now rewrite lookup_insert_ne.
      * now rewrite lookup_delete_ne.
Qed.

(** X9: A job that has been let in finishes, and gives its slot back, if
    its coroutine is resumed often enough: there is a continuation of
    the run, touching no other job, after which the job shows COMPLETED
    or FAILED and the semaphore has one more free slot. *)
Theorem started_job_terminates temp eng configured s job_id rest st :
  reachable temp eng configured s ->
  inside s !! job_id = Some (rest, st) ->
  exists s' j,
    rtc step s s'
    /\ get_job_status (service s') job_id = Some j
    /\ (status j = COMPLETED \/ status j = FAILED)
    /\ inside s' !! job_id = None
    /\ permits s' = S (permits s)
    /\ (forall k, k <> job_id ->
          get_job_status (service s') k = get_job_status (service s) k).
Proof.
  intros Hreach Hin. unfold get_job_status.
  pose proof (reachable_registry _ _ _ _ Hreach) as [_ _ _ _ Hinside _].
  destruct (Hinside _ _ _ Hin) as (j0 & _ & _ & _ & Hrun).
  destruct (run_ok_end _ _ _ Hrun) as ((_ & _ & _ & Hout) & _).
  destruct (resume_to_end job_id (length rest) rest st s (le_n _) Hin)
    as (s' & Hsteps & Hj & Hjobs & Hgone & _ & Hp & _).
  exists s', (st_job st). repeat split; auto.
  destruct Hout as [(Hst & _)|(Hst & _)]; auto.
Qed.

Lemma settled_outcome j :
  settled j -> status j = COMPLETED \/ status j = FAILED.
Proof. intros (_ & _ & _ & [(Hst & _)|(Hst & _)]); auto. Qed.

(** A coroutine that has gone past the semaphore can be run to its
    end. *)
Lemma started_can_finish temp eng configured s job_id :
  reachable temp eng configured s ->
  job_id ∈ started s ->
  exists s' j,
    rtc step s s' /\ jobs (service s') !! job_id = Some j /\ settled j.
Proof.
  intros Hreach Hs.
  pose proof (reachable_registry _ _ _ _ Hreach)
    as [_ _ Hstarted _ Hinside Hdone].
  destruct (inside s !! job_id) as [[rest st]|] eqn:Hin.
  - destruct (Hinside _ _ _ Hin) as (j0 & _ & _ & _ & Hrun).
    destruct (run_ok_end _ _ _ Hrun) as (Hset & _).
    destruct (resume_to_end job_id (length rest) rest st s (le_n _) Hin)
      as (s' & Hsteps & Hj & _).
    eauto 10.
  - destruct (Hstarted _ Hs) as [j Hj].
    exists s, j. split; [apply rtc_refl|]. eauto.
Qed.

(** X10: With a capacity of at least one, no job waits forever for want of a
    schedule: from every state the service can be in, every job of the
    registry can be brought to COMPLETED or FAILED by steps of the event
    loop alone (a slot is freed by running some job inside to its end,
    the job is let in, and run to its end). *)
Theorem every_job_can_finish temp eng configured s job_id j :
  (0 < max_concurrent_jobs configured)%nat ->
  reachable temp eng configured s ->
  get_job_status (service s) job_id = Some j ->
  exists s' j',
    rtc step s s'
    /\ get_job_status (service s') job_id = Some j'
    /\ (status j' = COMPLETED \/ status j' = FAILED).
Proof.
  intros Hcap Hreach Hj. unfold get_job_status in *.
  assert (Hfinish : forall s0, rtc step s s0 -> job_id ∈ started s0 ->
            exists s' j', rtc step s s'
                          /\ jobs (service s') !! job_id = Some j'
                          /\ (status j' = COMPLETED \/ status j' = FAILED)).
  { intros s0 Hs0 Hin.
    assert (Hreach0 : reachable temp eng configured s0).
    { unfold reachable in *. eapply rtc_trans; eauto. }
    destruct (started_can_finish _ _ _ _ _ Hreach0 Hin)
      as (s' & j' & Hsteps & Hj' & Hset).
    exists s', j'. split; [eapply rtc_trans; eauto|].
    split; [exact Hj'|]. now apply settled_outcome. }
  destruct (decide (job_id ∈ started s)) as [Hs|Hs].
  { apply (Hfinish s); [apply rtc_refl | exact Hs]. }
  (* the job waits: find a state with a free slot *)
  assert (Hfree : exists s1, rtc step s s1 /\ (0 < permits s1)%nat
                             /\ (job_id ∉ started s1)
                             /\ jobs (service s1) !! job_id = Some j).
  { pose proof (reachable_invariant _ _ _ _ Hreach) as [Hslots Hgate _ _].
    destruct (permits s) as [|p] eqn:Hp.
    - assert (Hne : size (inside s) <> 0%nat) by lia.
      apply map_size_ne_0_lookup_1 in Hne as (k & [rest st] & Hk).
      destruct (resume_to_end k (length rest) rest st s (le_n _) Hk)
        as (s1 & Hsteps & _ & Hjobs & _ & _ & Hp1 & Hs1).
      exists s1. split; [exact Hsteps|]. split; [lia|].
      split; [now rewrite Hs1|].
      rewrite Hjobs; [exact Hj|]. intros ->. apply Hs, Hgate. eauto.
    - exists s. split; [apply rtc_refl|]. split; [lia|]. auto. }
  destruct Hfree as (s1 & Hsteps1 & Hp1 & Hs1 & Hj1).
  assert (Hreach1 : reachable temp eng configured s1).
  { unfold reachable in *. eapply rtc_trans; eauto. }
  pose proof (reachable_registry _ _ _ _ Hreach1) as [Htasks Hmetrics _ _ _ _].
  assert (Htask : job_id ∈ tasks (service s1)) by (apply Htasks; eauto).
  destruct (proj1 (Hmetrics job_id) (ex_intro _ j Hj1)) as [m Hm].
  destruct (permits s1) as [|n] eqn:Hn; [lia|].
  pose proof (step_enter s1 n job_id j m sample_env Htask Hs1 Hn Hj1 Hm)
    as Hstep.
  match type of Hstep with step _ ?t => set (s2 := t) in * end.
  apply (Hfinish s2).
  - eapply rtc_r; eauto.
  - subst s2. destruct (process_body _ _ _ _) as [[log st] r].
    unfold run_on. destruct (next_suspension log) as [[j' rest]|]; cbn;
      apply elem_of_union; left; now apply elem_of_singleton.
Qed.

End Slots.

Section Outcomes.
Import Scheduler Registry Invariants.

(** The history of a job is the record [create_job] stores, the wait
    for the semaphore, and the run of the body. *)
Lemma job_history_body self cenv env path opts :
  let job := new_job cenv path opts in
  let r := process_body (temp_dir self) (engines self) env
                        (mkState job (new_metrics cenv)) in
  job_history self cenv env path opts
  = (Wrote job :: Suspended job :: r.1.1, r.1.2, r.2).
Proof.
  cbv zeta. unfold job_history, _process_job.
  unfold mbind at 1. unfold task_bind at 1. unfold suspend at 1.
  cbn [st_job].
  destruct (process_body _ _ _ _) as [[log st] [e|[]]]; reflexivity.
Qed.

Lemma job_history_facts self cenv env path opts :
  let s := mkState (new_job cenv path opts) (new_metrics cenv) in
  let h := job_history self cenv env path opts in
  settled (final h) /\ outcome_ok (engines self) env s (final h).
Proof.
  intros s h. subst h. unfold final. rewrite job_history_body. cbn [fst snd].
  destruct (process_body_facts (temp_dir self) (engines self) env s
              (new_job_untouched cenv path opts))
    as (_ & Hset & _ & _ & _ & _ & Hout).
  split; [now apply settled_b_spec | exact Hout].
Qed.

(** X11: The record of a COMPLETED job: [started_at] and [completed_at] are
    the clock readings taken when the coroutine went past the semaphore
    and when the handler returned; [processing_time_ms] is counted from
    the reading [create_job] took for the metrics, so it includes the
    time spent waiting for a slot; the result reports success and names
    the engine [_select_engine] chose; no error is attached. *)
Theorem completed_job_record self cenv env path opts :
  let h := job_history self cenv env path opts in
  status (final h) = COMPLETED ->
  started_at (final h) = Some (clock_started env)
  /\ completed_at (final h) = Some (clock_end env)
  /\ processing_time_ms (final h) = Some (clock_end env - now_metrics cenv)
  /\ error (final h) = None
  /\ exists r e,
       result (final h) = Some r /\ success r = true
       /\ _select_engine (engines self) (new_job cenv path opts) = inr e
       /\ engine_used r = engine_value e.
Proof.
  intros h Hst.
  destruct (job_history_facts self cenv env path opts) as [Hset Hout].
  fold h in Hset, Hout. destruct Hout as [Hstart Hout].
  rewrite Hst in Hout. destruct Hout as (Hend & Htime & Hsucc & Heng).
  destruct Hset as (_ & _ & _ & [(_ & _ & _ & Herr & _)|(Hf & _)]);
    [|congruence].
  repeat split; auto.
  destruct (result (final h)) as [r|]; [|discriminate].
  cbn in Hsucc, Heng. unfold engine_name in Heng. cbn [st_job] in Heng.
  destruct (_select_engine _ _) as [msg|e]; [discriminate|].
  exists r, e. repeat split; congruence.
Qed.


End Outcomes.

(** ** What each handler leaves behind *)

(** Run the history of a job whose operation is the literal [name],
    handled by [handler], leaving the final record in the goal. *)
Ltac run_history name handler :=
  unfold final;
  match goal with
  | |- context [job_history ?a ?b ?c ?d ?e] =>
      let E := fresh "E" in
      let log := fresh "log" in
      let st := fresh "st" in
      let r := fresh "r" in
      destruct (job_history a b c d e) as [[log st] r] eqn:E;
      revert E; run_up_to_dispatch;
      match goal with
      | |- context [dispatch ?t ?s ?e name] =>
          change (dispatch t s e name) with (handler t s e)
      end;
      intros E; evaluate_in E; injection E as <- <- <-;
      cbn [fst snd st_job status progress result error]
  end.

Section HandlerOutcomes.
Import Scheduler Registry Invariants.



(** X15: A compress job for which MuPDF is selected runs the PyMuPDF calls
    in order. When one of them raises, the job is FAILED with that
    error behind the prefix "MuPDF compression failed: ", and the
    progress stays where it was: 0 when opening fails, 30 when saving
    fails, 80 when the size of the output cannot be read, 100 when
    closing fails. When none raises, the job completes with the page
    count of the document and a size reduction of the original size
    minus the size of the output (unless the elapsed time is zero and
    the document has pages). *)
Theorem compress_mupdf_outcome self cenv env path opts :
  operation opts = "compress" ->
  _select_engine (engines self) (new_job cenv path opts) = inr MUPDF ->
  let h := job_history self cenv env path opts in
  let failed_with e p :=
    status (final h) = FAILED
    /\ error (final h) = Some ("MuPDF compression failed: " +:+ e)
    /\ progress (final h) = p in
  match fitz_open env with
  | inl e => failed_with e 0
  | inr pages =>
      match fitz_save env with
      | Some e => failed_with e 30
      | None =>
          match stat_output env with
          | inl e => failed_with e 80
          | inr compressed_size =>
              match fitz_close env with
              | Some e => failed_with e 100
              | None =>
                  progress (final h) = 100
                  /\ (~ (0 < pages /\ clock_end env = now_metrics cenv) ->
                      status (final h) = COMPLETED
                      /\ result (final h)
                         = Some (mkResult true
                                   (Some (temp_dir self +:+ "/compressed_"
                                          +:+ uuid4 cenv +:+ ".pdf"))
                                   pages "compress" "mupdf"
                                   (Some (default 0 (stat_size cenv)
                                          - compressed_size))))
              end
          end
      end
  end.
Proof.
  destruct self as [? ? temp [mupdf pdfium] ?], opts as [op fmt pc compliance],
           env as [? ? ? fopen fsave fstat fclose ?], cenv as [? size ? ?].
  cbn [operation engines page_count output_format temp_dir uuid4
       fitz_open fitz_save stat_output fitz_close clock_end now_metrics
       stat_size].
  intros -> Hsel. cbv zeta.
  destruct fopen as [e|pages];
    [|destruct fsave as [e|];
      [|destruct fstat as [e|compressed_size]; [|destruct fclose as [e|]]]];
    destruct size as [size|];
    destruct compliance, mupdf, pdfium; cbv in Hsel; try discriminate Hsel;
    run_history "compress"
                (fun t (s : Engines) (e : Env) => _compress_pdf t s e);
    repeat split; try reflexivity; intros;
    try reflexivity; exfalso; lia.
Qed.


End HandlerOutcomes.

Section Witnesses.
Import Scheduler Registry Invariants Examples.


Lemma queued_job_as_submitted_witness :
  get_job_result (service gate3) (uuid4 second_create) = None.
Proof.
  apply (queued_job_as_submitted _ _ _ gate3 (uuid4 second_create)
           (new_job second_create sample_path (sample_options "split"))
           gate3_reachable);
    [vm_compute; reflexivity | reflexivity].
Defined.




Lemma registry_keeps_submissions_witness :
  exists j',
    get_job_status (service gate3) (uuid4 sample_create) = Some j'
    /\ id j' = uuid4 sample_create /\ filename j' = "report.pdf"
    /\ file_path j' = "/uploads/report.pdf"
    /\ options j' = sample_options "merge"
    /\ created_at j' = 1000 /\ file_size_bytes j' = 0.
Proof.
  apply (registry_keeps_submissions "/tmp/pdf_saas_platform"
           (mkEngines true true) (Some 1%nat) gate1 gate3
           (uuid4 sample_create)
           (new_job sample_create sample_path (sample_options "merge"))).
  - apply rtc_once.
    apply (step_submit gate0 sample_create sample_path
                       (sample_options "merge")).
    reflexivity.
  - apply rtc_l with gate2.
    { apply (step_submit gate1 second_create sample_path
                         (sample_options "split")).
      vm_compute. reflexivity. }
    apply rtc_once.
    apply (step_enter gate2 0 (uuid4 sample_create)
                      (new_job sample_create sample_path
                               (sample_options "merge"))
                      (new_metrics sample_create) sample_env).
    + apply elem_of_app. left. apply elem_of_app. right.
      apply list_elem_of_here.
    + apply not_elem_of_empty.
    + reflexivity.
    + vm_compute. reflexivity.
    + vm_compute. reflexivity.
  - vm_compute. reflexivity.
Defined.


Lemma processing_jobs_hold_the_slots_witness :
  size (processing_jobs gate3) = size (inside gate3).
Proof.
  exact (proj1 (proj2 (processing_jobs_hold_the_slots _ _ _ gate3
                         gate3_reachable))).
Defined.

Lemma scheduled_task_finds_its_job_witness :
  is_Some (get_job_status (service gate3) (uuid4 second_create))
  /\ is_Some (metrics (service gate3) !! uuid4 second_create).
Proof.
  apply (proj1 (scheduled_task_finds_its_job _ _ _ gate3
                  (uuid4 second_create) gate3_reachable)).
  apply elem_of_app. right. apply list_elem_of_here.
Defined.

Lemma started_job_terminates_witness :
  exists s' j,
    rtc step gate3 s'
    /\ get_job_status (service s') (uuid4 sample_create) = Some j
    /\ (status j = COMPLETED \/ status j = FAILED)
    /\ inside s' !! uuid4 sample_create = None
    /\ permits s' = 1%nat
    /\ (forall k, k <> uuid4 sample_create ->
          get_job_status (service s') k = get_job_status (service gate3) k).
Proof.
  eapply (started_job_terminates _ _ _ gate3 (uuid4 sample_create)
            _ _ gate3_reachable).
  vm_compute. reflexivity.
Defined.

Lemma every_job_can_finish_witness :
  exists s' j',
    rtc step gate3 s'
    /\ get_job_status (service s') (uuid4 second_create) = Some j'
    /\ (status j' = COMPLETED \/ status j' = FAILED).
Proof.
  apply (every_job_can_finish "/tmp/pdf_saas_platform" (mkEngines true true)
           (Some 1%nat) gate3 (uuid4 second_create)
           (new_job second_create sample_path (sample_options "split"))).
  - cbn. lia.
  - exact gate3_reachable.
  - vm_compute. reflexivity.
Defined.

Lemma completed_job_record_witness :
  let h := job_history sample_service second_create sample_env sample_path
                       (sample_options "convert") in
  processing_time_ms (final h) = Some (5200 - 1003).
Proof.
  intros h.
  apply (completed_job_record sample_service second_create sample_env
           sample_path (sample_options "convert")).
  reflexivity.
Defined.




Lemma compress_mupdf_outcome_witness :
  let h := job_history sample_service sample_create broken_env sample_path
                       (sample_options "compress") in
  status (final h) = FAILED
  /\ error (final h)
     = Some "MuPDF compression failed: cannot open broken document"
  /\ progress (final h) = 0.
Proof.
  exact (compress_mupdf_outcome sample_service sample_create broken_env
           sample_path (sample_options "compress") eq_refl eq_refl).
Defined.


End Witnesses.

(** ** More on the conversion pipeline *)

Section ConversionReports.
Import LibreOffice Pipeline.

(** The conversion step invokes the primary strategy first. *)
Lemma conversion_step_ran w staged job_id :
  (conversion_step w staged job_id).1.1 = [Primary]
  \/ (conversion_step w staged job_id).1.1 = [Primary; Alternative].
Proof.
  unfold conversion_step.
  destruct (_convert_with_libreoffice (primary w)) as [[e|e|e|e]|r];
    try (left; reflexivity).
  destruct (unsupported_signature e); [|left; reflexivity].
  destruct (_convert_pdf_to_pptx_alternative _ _ _) as [d [a|p]];
    right; reflexivity.
Qed.

(** An input that does not exist, or whose suffix is not ".pdf" in any
    casing, is rejected before any conversion strategy is invoked; a
    missing file is reported as such even when its suffix is wrong too. *)
Theorem invalid_input_is_rejected temp w pdf job_id :
  in_exists pdf = false \/ lower (in_suffix pdf) <> ".pdf" ->
  let run := convert_pdf_to_ppt temp w pdf job_id in
  strategies run = [] /\ delivered run = None
  /\ returned run
     = ConversionFailed job_id
         ("PDF to PPT conversion failed: "
          +:+ (if in_exists pdf
               then "Input file must be PDF, got: " +:+ in_suffix pdf
               else "PDF file not found: " +:+ in_path pdf))
         (conversion_time w).
Proof.
  intros Hbad. cbv zeta. unfold convert_pdf_to_ppt.
  destruct (in_exists pdf); cbn [negb].
  - destruct Hbad as [Hbad|Hbad]; [discriminate|].
    apply String.eqb_neq in Hbad. rewrite Hbad. cbn. auto.
  - cbn. auto.
Qed.

Lemma invalid_input_is_rejected_witness :
  strategies (convert_pdf_to_ppt "/tmp/libreoffice_processor"
                world_empty_output
                (mkInput "/uploads/notes.docx" "notes.docx" true ".docx" 900)
                "j2")
  = [].
Proof.
  apply (invalid_input_is_rejected "/tmp/libreoffice_processor"
           world_empty_output
           (mkInput "/uploads/notes.docx" "notes.docx" true ".docx" 900) "j2").
  right. discriminate.
Defined.

(** The report of a run, success or failure. *)
Lemma convert_pdf_to_ppt_report temp w pdf job_id :
  let run := convert_pdf_to_ppt temp w pdf job_id in
  (is_success (returned run) = true ->
   in_exists pdf = true /\ lower (in_suffix pdf) = ".pdf"
   /\ head (strategies run) = Some Primary
   /\ exists f,
        delivered run = Some f
        /\ fname f = temp +:+ "/converted_" +:+ job_id +:+ ".pptx"
        /\ returned run
           = Converted job_id (in_path pdf) (fname f) (conversion_time w)
               (in_size pdf) (fsize f) (conversion_time w <=? 6000)
               (libreoffice_version w))
  /\ (is_success (returned run) = false ->
      delivered run = None
      /\ exists e,
           returned run
           = ConversionFailed job_id
               ("PDF to PPT conversion failed: " +:+ e) (conversion_time w)).
Proof.
  cbv zeta. unfold convert_pdf_to_ppt.
  destruct (in_exists pdf); cbn [negb];
    [|split; [discriminate | intros _; cbn; eauto]].
  destruct (String.eqb (lower (in_suffix pdf)) ".pdf") eqn:Hsuffix; cbn [negb];
    [|split; [discriminate | intros _; cbn; eauto]].
  apply String.eqb_eq in Hsuffix.
  pose proof (conversion_step_ran w
                [mkFile ("input_" +:+ job_id +:+ ".pdf") (in_size pdf) None]
                job_id) as Hran.
  destruct (conversion_step _ _ _) as [[ran dir] [e|]]; cbn [fst] in Hran;
    [split; [discriminate | intros _; cbn; eauto]|].
  destruct (glob_ppt dir) as [|output_file others];
    [split; [discriminate | intros _; cbn; eauto]|].
  split; [|discriminate]. intros _. cbn.
  repeat split; auto.
  - destruct Hran as [-> | ->]; reflexivity.
  - eexists. repeat split; reflexivity.
Qed.

(** X17: What a run reports is consistent with what it leaves behind. A
    success means: the input existed and was a PDF, the primary
    strategy was invoked first, a file was moved to
    [<temp_dir>/converted_<job_id>.pptx], and the report carries that
    path, the size of that file, the size of the input, and the
    performance flag, which is [conversion_time <= 6 s] and nothing
    more (a slow conversion is still a success). A failed run moves
    no file to the final location and carries a message that starts with
    "PDF to PPT conversion failed: ". *)
Theorem conversion_report_is_consistent temp w pdf job_id :
  let run := convert_pdf_to_ppt temp w pdf job_id in
  (is_success (returned run) = true ->
   in_exists pdf = true /\ lower (in_suffix pdf) = ".pdf"
   /\ head (strategies run) = Some Primary
   /\ exists f,
        delivered run = Some f
        /\ fname f = temp +:+ "/converted_" +:+ job_id +:+ ".pptx"
        /\ returned run
           = Converted job_id (in_path pdf) (fname f) (conversion_time w)
               (in_size pdf) (fsize f) (conversion_time w <=? 6000)
               (libreoffice_version w))
  /\ (is_success (returned run) = false ->
      delivered run = None
      /\ exists e,
           returned run
           = ConversionFailed job_id
               ("PDF to PPT conversion failed: " +:+ e) (conversion_time w)).
Proof. exact (convert_pdf_to_ppt_report temp w pdf job_id). Qed.

Lemma conversion_report_is_consistent_witness :
  let run := convert_pdf_to_ppt "/tmp/libreoffice_processor"
               (mkWorld (Exited 0 "" [mkFile "input_j1.pptx" 48000 None])
                        (AltDepsMissing "No module named 'pdf2image'")
                        "LibreOffice 7.6" 7500)
               sample_pdf "j1" in
  exists f,
    delivered run = Some f
    /\ fname f = "/tmp/libreoffice_processor/converted_j1.pptx"
    /\ returned run
       = Converted "j1" "/uploads/slides.pdf" (fname f) 7500 52000 (fsize f)
           false "LibreOffice 7.6".
Proof.
  intros run.
  apply (proj1 (conversion_report_is_consistent "/tmp/libreoffice_processor"
                  (mkWorld (Exited 0 "" [mkFile "input_j1.pptx" 48000 None])
                           (AltDepsMissing "No module named 'pdf2image'")
                           "LibreOffice 7.6" 7500)
                  sample_pdf "j1")).
  reflexivity.
Defined.

(** X18: A run of the external converter that exceeds its 30 s is reported
    as a failure at once: the in-process strategy is not attempted. *)
Theorem timeout_is_reported_without_fallback temp w pdf job_id :
  in_exists pdf = true ->
  lower (in_suffix pdf) = ".pdf" ->
  primary w = TimedOut ->
  let run := convert_pdf_to_ppt temp w pdf job_id in
  strategies run = [Primary] /\ delivered run = None
  /\ returned run
     = ConversionFailed job_id
         "PDF to PPT conversion failed: LibreOffice command timed out after 30s"
         (conversion_time w).
Proof.
  intros Hexists Hsuffix Hprimary. cbv zeta.
  unfold convert_pdf_to_ppt, conversion_step.
  rewrite Hexists, Hsuffix, Hprimary. cbn. auto.
Qed.

Lemma timeout_is_reported_without_fallback_witness :
  strategies (convert_pdf_to_ppt "/tmp/libreoffice_processor"
                (mkWorld TimedOut (AltSaved 4096 None) "LibreOffice 7.6" 30500)
                sample_pdf "j1")
  = [Primary].
Proof.
  apply (timeout_is_reported_without_fallback "/tmp/libreoffice_processor"
           (mkWorld TimedOut (AltSaved 4096 None) "LibreOffice 7.6" 30500)
           sample_pdf "j1");
    reflexivity.
Defined.

Lemma glob_ppt_cons g dir :
  glob_ppt (g :: dir)
  = if contains ".ppt" (fname g) then g :: glob_ppt dir else glob_ppt dir.
Proof.
  unfold glob_ppt. rewrite filter_cons.
  destruct (contains ".ppt" (fname g)) eqn:E.
  - rewrite decide_True by done. reflexivity.
  - rewrite decide_False by discriminate. reflexivity.
Qed.

(** Writing a presentation into a directory that holds none makes it
    the one file the glob finds. *)
Lemma glob_ppt_write f dir :
  contains ".ppt" (fname f) = true ->
  glob_ppt dir = [] ->
  glob_ppt (write_file f dir) = [f].
Proof.
  intros Hf. induction dir as [|g dir IH]; cbn [write_file].
  - intros _. rewrite glob_ppt_cons, Hf. reflexivity.
  - rewrite glob_ppt_cons.
    destruct (contains ".ppt" (fname g)) eqn:Hg; [discriminate|].
    intros Hdir. destruct (String.eqb (fname g) (fname f)) eqn:Hname.
    + apply String.eqb_eq in Hname. congruence.
    + rewrite glob_ppt_cons, Hg. auto.
Qed.

Lemma presentation_name job_id :
  contains ".ppt" ("input_" +:+ job_id +:+ ".pptx") = true.
Proof.
  apply (contains_skip ".ppt" "input_"), contains_skip. reflexivity.
Qed.

(** X19: When the external run leaves nothing that looks like a presentation
    in the working directory: if it ended without an error, the
    conversion fails with "no PPT file was generated"; and whenever the
    conversion succeeds all the same, the file comes from the
    in-process strategy and has passed [_validate_pptx_file]. *)
Theorem no_presentation_from_libreoffice temp w pdf job_id :
  in_exists pdf = true ->
  lower (in_suffix pdf) = ".pdf" ->
  glob_ppt (working_directory w pdf job_id) = [] ->
  let run := convert_pdf_to_ppt temp w pdf job_id in
  (forall r, _convert_with_libreoffice (primary w) = inr r ->
     strategies run = [Primary] /\ delivered run = None
     /\ reported_error (returned run)
        = Some "PDF to PPT conversion failed: LibreOffice conversion completed but no PPT file was generated. Conversion failed.")
  /\ (is_success (returned run) = true ->
      strategies run = [Primary; Alternative]
      /\ exists f, delivered run = Some f /\ _validate_pptx_file f = true).
Proof.
  intros Hexists Hsuffix Hdir. cbv zeta.
  unfold convert_pdf_to_ppt, conversion_step.
  rewrite Hexists, Hsuffix. cbn [negb].
  change (String.eqb ".pdf" ".pdf") with true. cbn [negb].
  unfold working_directory in Hdir. cbv zeta in Hdir.
  set (dir := match primary w with
              | Exited _ _ files => _
              | _ => _
              end) in *.
  split.
  - intros r Hr. rewrite Hr, Hdir. cbn. auto.
  - destruct (_convert_with_libreoffice (primary w)) as [[e|e|e|e]|r];
      try discriminate.
    + destruct (unsupported_signature e); [|discriminate].
      destruct (alternative w) as [m|m|a|size members]; try discriminate.
      cbn [_convert_pdf_to_pptx_alternative].
      destruct (_validate_pptx_file _) eqn:Hvalid; cbn [negb];
        [|discriminate].
      rewrite (glob_ppt_write
                 (mkFile ("input_" +:+ job_id +:+ ".pptx") size members) dir
                 (presentation_name job_id) Hdir).
      intros _. split; [reflexivity|]. cbn.
      eexists. split; [reflexivity|]. exact Hvalid.
    + rewrite Hdir. discriminate.
Qed.

Lemma no_presentation_from_libreoffice_witness :
  let run := convert_pdf_to_ppt "/tmp/libreoffice_processor"
               (mkWorld (Exited 0 "" []) (AltSaved 4096 None)
                        "LibreOffice 7.6" 1200)
               sample_pdf "j1" in
  strategies run = [Primary] /\ delivered run = None
  /\ reported_error (returned run)
     = Some "PDF to PPT conversion failed: LibreOffice conversion completed but no PPT file was generated. Conversion failed.".
Proof.
  intros run.
  apply (proj1 (no_presentation_from_libreoffice "/tmp/libreoffice_processor"
                  (mkWorld (Exited 0 "" []) (AltSaved 4096 None)
                           "LibreOffice 7.6" 1200)
                  sample_pdf "j1" eq_refl eq_refl eq_refl)
           (mkCompleted 0 "" [])).
  reflexivity.
Defined.

Lemma existsb_eqb_elem x (l : list string) :
  existsb (String.eqb x) l = true <-> x ∈ l.
Proof.
  rewrite existsb_exists. split.
  - intros (y & Hy & Heq). apply String.eqb_eq in Heq as ->.
    now apply list_elem_of_In.
  - intros Hx. exists x. split; [now apply list_elem_of_In|].
    apply String.eqb_refl.
Qed.

(** [_validate_pptx_file] accepts exactly the files of at least 1024
    bytes that open as an archive listing both "[Content_Types].xml"
    and "ppt/presentation.xml", wherever in the listing and whatever
    else it holds. *)
Theorem validate_pptx_file_spec f :
  _validate_pptx_file f = true
  <-> 1024 <= fsize f
      /\ exists members,
           zip_members f = Some members
           /\ "[Content_Types].xml" ∈ members
           /\ "ppt/presentation.xml" ∈ members.
Proof.
  unfold _validate_pptx_file, required_files.
  destruct (fsize f <? 1024) eqn:Hsize.
  - apply Z.ltb_lt in Hsize. split; [discriminate|]. intros [H _]. lia.
  - apply Z.ltb_ge in Hsize.
    destruct (zip_members f) as [members|].
    + cbn [forallb]. rewrite andb_true_r, andb_true_iff, !existsb_eqb_elem.
      split.
      * intros [H1 H2]. split; [exact Hsize|]. eauto.
      * intros (_ & ms & [= <-] & H1 & H2). auto.
    + split; [discriminate|]. intros (_ & ms & Hms & _). discriminate.
Qed.

End ConversionReports.

(** ** More on the rate governor *)

Section RateIsolation.
Import RateGovernor Governor.

Lemma consumed_consume_other self now identifier other hour :
  other <> identifier \/ hour <> hour_key now ->
  bucket (consume_rate_limit self now identifier) other hour
  = bucket self other hour.
Proof.
  intros Hne. rewrite bucket_consume, decide_False; [reflexivity|].
  intros [-> ->]. destruct Hne; contradiction.
Qed.

(** X20: Consuming a request counts against one identifier in one hour only:
    what the limiter holds for any other identifier, or for the same
    identifier in another hour, stays as it was, and a check there
    gives the same answer as before. *)
Theorem consumption_is_isolated self now identifier other t limit :
  other <> identifier \/ hour_key t <> hour_key now ->
  let self' := consume_rate_limit self now identifier in
  consumed self' other (hour_key t) = consumed self other (hour_key t)
  /\ (check_rate_limit self' t other limit).1
     = (check_rate_limit self t other limit).1.
Proof.
  intros Hne self'. subst self'. split.
  - unfold consumed. now rewrite consumed_consume_other.
  - rewrite !check_rate_limit_info. unfold current_bucket.
    now rewrite consumed_consume_other.
Qed.

Lemma consumption_is_isolated_witness :
  (check_rate_limit (consume_rate_limit empty_auth 0 "api_key:k1")
                    1500000 "api_key:k2" 5).1
  = (check_rate_limit empty_auth 1500000 "api_key:k2" 5).1.
Proof.
  apply (consumption_is_isolated empty_auth 0 "api_key:k1" "api_key:k2"
           1500000 5).
  left. discriminate.
Defined.

Lemma well_kept_empty : well_kept empty_auth.
Proof. intros identifier hour b H. discriminate. Qed.

Lemma well_kept_same a b : same_buckets a b -> well_kept b -> well_kept a.
Proof. intros Hab Hb identifier hour x Hx. rewrite Hab in Hx. eauto. Qed.

Lemma well_kept_consume self now identifier :
  well_kept self -> well_kept (consume_rate_limit self now identifier).
Proof.
  intros Hself other hour b. rewrite bucket_consume.
  destruct (decide (other = identifier /\ hour = hour_key now))
    as [[-> ->]|Hne]; [|apply Hself].
  intros [= <-]. unfold current_bucket, next_hour. cbn.
  destruct (bucket self identifier (hour_key now)) as [b|] eqn:Hb; cbn.
  - destruct (Hself _ _ _ Hb) as [Hcount Hreset]. split; [lia | exact Hreset].
  - split; [lia | reflexivity].
Qed.

Lemma well_kept_calls cs self :
  well_kept self -> well_kept (calls cs self).2.
Proof.
  revert self. induction cs as [|c cs IH]; intros self Hself; [exact Hself|].
  cbn [calls]. destruct c as [now identifier limit | now identifier];
    cbn [call].
  - pose proof (check_rate_limit_buckets self now identifier limit) as Hsame.
    destruct (check_rate_limit self now identifier limit) as [info self1].
    cbn in Hsame. specialize (IH self1 (well_kept_same _ _ Hsame Hself)).
    destruct (calls cs self1). exact IH.
  - specialize (IH _ (well_kept_consume self now identifier Hself)).
    destruct (calls cs (consume_rate_limit self now identifier)). exact IH.
Qed.

Lemma seconds_to_next_hour now :
  0 <= int_total_seconds (next_hour now - now) <= 3600.
Proof.
  pose proof (next_hour_ahead now) as [Hpos Hle].
  unfold int_total_seconds, us_per_hour, us_per_second in *. split.
  - apply Z.quot_pos; lia.
  - apply Z.quot_le_upper_bound; lia.
Qed.

(** X21: Whatever checks and consumptions a limiter has served since the
    service started, its answers are in range: the reset time reported
    is the start of the next hour; the remaining count is never
    negative and never above a non-negative limit; [retry_after] is
    reported exactly when nothing remains, and then lies within 0..3600
    seconds. *)
Theorem limiter_answers_in_range cs now identifier limit :
  let self := (calls cs empty_auth).2 in
  let info := (check_rate_limit self now identifier limit).1 in
  info_reset_time info = next_hour now
  /\ requests_limit info = limit
  /\ 0 <= requests_remaining info
  /\ (0 <= limit -> requests_remaining info <= limit)
  /\ (forall r, retry_after info = Some r ->
        requests_remaining info = 0 /\ 0 <= r <= 3600)
  /\ (retry_after info = None -> 0 < requests_remaining info).
Proof.
  intros self info. subst info. rewrite check_rate_limit_info. cbv zeta.
  pose proof (well_kept_calls cs empty_auth well_kept_empty) as Hkept.
  fold self in Hkept.
  assert (Hb : reset_time (current_bucket self now identifier) = next_hour now
               /\ 0 <= count (current_bucket self now identifier)).
  { unfold current_bucket.
    destruct (bucket self identifier (hour_key now)) as [b|] eqn:Hb; cbn.
    - destruct (Hkept _ _ _ Hb) as [Hcount Hreset].
      split; [exact Hreset | lia].
    - split; [reflexivity | lia]. }
  destruct Hb as [Hreset Hcount].
  cbn [info_reset_time requests_limit requests_remaining retry_after].
  rewrite Hreset.
  split; [reflexivity|]. split; [reflexivity|]. split; [lia|].
  split; [lia|].
  destruct (Z.max 0 (limit - count (current_bucket self now identifier)) =? 0)
    eqn:Hzero.
  - apply Z.eqb_eq in Hzero. split; [|discriminate].
    intros r [= <-]. split; [exact Hzero | apply seconds_to_next_hour].
  - apply Z.eqb_neq in Hzero. split; [discriminate|]. intros _. lia.
Qed.

End RateIsolation.

(** ** Users, API keys and quotas *)

Section AccountsFacts.
Import AuthModels AuthService Accounts.

Lemma dict_get_set_eq {A} k (v : A) d : dict_get k (dict_set k v d) = Some v.
Proof.
  induction d as [|[k' v'] d IH]; cbn.
  - now rewrite String.eqb_refl.
  - destruct (String.eqb k' k) eqn:E; cbn.
    + now rewrite String.eqb_refl.
    + now rewrite E.
Qed.

Lemma dict_get_set_ne {A} k k' (v : A) d :
  k <> k' -> dict_get k' (dict_set k v d) = dict_get k' d.
Proof.
  intros Hne. apply String.eqb_neq in Hne.
  induction d as [|[k0 v0] d IH]; cbn.
  - now rewrite Hne.
  - destruct (String.eqb k0 k) eqn:E; cbn.
    + apply String.eqb_eq in E as ->. now rewrite Hne.
    + destruct (String.eqb k0 k'); [reflexivity | exact IH].
Qed.

Lemma dict_get_values {A} k (v : A) d :
  dict_get k d = Some v -> v ∈ dict_values d.
Proof.
  induction d as [|[k0 v0] d IH]; cbn; [discriminate|].
  destruct (String.eqb k0 k).
  - intros [= ->]. apply list_elem_of_here.
  - intros H. apply list_elem_of_further, IH, H.
Qed.

Lemma dict_values_set {A} k (v u : A) d :
  u ∈ dict_values (dict_set k v d) -> u = v \/ u ∈ dict_values d.
Proof.
  induction d as [|[k0 v0] d IH]; cbn.
  - intros H. apply list_elem_of_singleton in H. now left.
  - destruct (String.eqb k0 k); cbn; intros H;
      apply elem_of_cons in H as [H|H]; auto.
    + right. now apply list_elem_of_further.
    + right. subst. apply list_elem_of_here.
    + destruct (IH H); auto. right. now apply list_elem_of_further.
Qed.

(** The password rules, as one condition. *)
Lemma password_strength_spec password :
  _validate_password_strength password = None
  <-> (8 <= String.length password)%nat
      /\ any_char isupper password = true
      /\ any_char islower password = true
      /\ any_char isdigit password = true.
Proof.
  unfold _validate_password_strength.
  destruct (String.length password <? 8)%nat eqn:Hlen.
  - apply Nat.ltb_lt in Hlen. split; [discriminate | lia].
  - apply Nat.ltb_ge in Hlen.
    destruct (any_char isupper password), (any_char islower password),
             (any_char isdigit password); cbn;
      split; try discriminate; try tauto;
      intros (_ & ? & ? & ?); discriminate.
Qed.



Lemma emails_set k v (d : Dict User) :
  (forall u, u ∈ dict_values d -> u_email u <> u_email v) ->
  NoDup (u_email <$> dict_values d) ->
  NoDup (u_email <$> dict_values (dict_set k v d)).
Proof.
  induction d as [|[k0 v0] d IH]; cbn; intros Hnew Hd.
  - apply NoDup_singleton.
  - apply NoDup_cons in Hd as [Hv0 Hd].
    destruct (String.eqb k0 k); cbn.
    + apply NoDup_cons. split; [|exact Hd].
      intros Hin. apply list_elem_of_fmap in Hin as (u & Hu & Hin).
      apply (Hnew u); [now apply list_elem_of_further | congruence].
    + apply NoDup_cons. split.
      * intros Hin. apply list_elem_of_fmap in Hin as (u & Hu & Hin).
        apply dict_values_set in Hin as [->|Hin].
        -- apply (Hnew v0); [apply list_elem_of_here | congruence].
        -- apply Hv0. apply list_elem_of_fmap. eauto.
      * apply IH; [|exact Hd]. intros u Hu. apply Hnew.
        now apply list_elem_of_further.
Qed.

Lemma create_user_accounts_ok hash self env user_data :
  accounts_ok self -> accounts_ok (create_user hash self env user_data).2.
Proof.
  intros [Hdup Hactive]. unfold create_user.
  destruct (existsb _ _) eqn:Htaken; [split; assumption|].
  destruct (_validate_password_strength _); [split; assumption|].
  unfold _create_default_api_key, create_api_key.
  cbn [users with_users]. rewrite dict_get_set_eq. cbn.
  split.
  - apply emails_set; [|exact Hdup]. cbn. intros u Hu Heq.
    assert (existsb (fun u => String.eqb (u_email u) (uc_email user_data))
                    (dict_values (users self)) = true) as Hex; [|congruence].
    apply existsb_exists. exists u. split; [now apply list_elem_of_In|].
    now apply String.eqb_eq.
  - apply Forall_forall. intros u Hu.
    apply dict_values_set in Hu as [->|Hu]; [reflexivity|].
    rewrite Forall_forall in Hactive. auto.
Qed.

Lemma register_all_accounts_ok hash calls self :
  accounts_ok self -> accounts_ok (register_all hash calls self).
Proof.
  revert self. induction calls as [|c calls IH]; intros self Hself;
    [exact Hself|].
  cbn. apply IH. now apply create_user_accounts_ok.
Qed.

Lemma find_unique (l : list User) u :
  NoDup (u_email <$> l) -> u ∈ l ->
  find (fun x => String.eqb (u_email x) (u_email u)) l = Some u.
Proof.
  induction l as [|x l IH]; cbn; intros Hdup Hu; [inversion Hu|].
  apply NoDup_cons in Hdup as [Hx Hdup].
  destruct (String.eqb (u_email x) (u_email u)) eqn:E.
  - apply String.eqb_eq in E.
    apply elem_of_cons in Hu as [->|Hu]; [reflexivity|].
    exfalso. apply Hx. rewrite E. apply list_elem_of_fmap. eauto.
  - apply elem_of_cons in Hu as [->|Hu].
    + rewrite String.eqb_refl in E. discriminate.
    + auto.
Qed.

(** X23: Whatever registrations a service has served since it started, no
    two of its users share an email address, and every user it holds
    can log in: [authenticate_user] with the user's email returns that
    user, with the login time set, whatever password is presented (the
    password is never compared). *)
Theorem registered_users_can_log_in hash calls now password u :
  let s := register_all hash calls empty in
  NoDup (u_email <$> dict_values (users s))
  /\ (u ∈ dict_values (users s) ->
      (authenticate_user s now (u_email u) password).1
      = Some (with_last_login now u)).
Proof.
  intros s.
  assert (Hok : accounts_ok s).
  { apply register_all_accounts_ok. split; [apply NoDup_nil_2 | constructor]. }
  destruct Hok as [Hdup Hactive]. split; [exact Hdup|].
  intros Hu. unfold authenticate_user.
  rewrite (find_unique _ _ Hdup Hu).
  rewrite Forall_forall in Hactive. rewrite (Hactive u Hu). reflexivity.
Qed.

Lemma registered_users_can_log_in_witness :
  exists u,
    (authenticate_user sample_accounts 1700000100000000 "trial@example.com"
                       "not the password").1
    = Some u
    /\ u_last_login u = Some 1700000100000000.
Proof.
  eexists. split.
  - apply (proj2 (registered_users_can_log_in sample_hash
                    [(sample_user_env, sample_registration)]
                    1700000100000000 "not the password"
                    (mkUser "7d0c6a52-0000-4000-8000-00000000000a"
                            "trial@example.com" "Trial User" None
                            UserRole.TRIAL PlanType.FREE true
                            1700000000000000 1700000000000000 None false
                            0 0 10))).
    vm_compute. apply list_elem_of_here.
  - reflexivity.
Defined.




End AccountsFacts.

(** ** Quotas *)

Section Quotas.
Import AuthModels AuthService Accounts.

(** X25: The monthly quota: a user who has processed [p] documents of a
    limit [L] (with [p <= L]) is granted the next document exactly while
    fewer than [L] have been counted; the i-th of a series of calls
    answers [True] iff [p + i < L]. The count never passes the limit,
    and the total grows with it. *)
Theorem monthly_quota_is_enforced times : forall self user_id user,
  dict_get user_id (users self) = Some user ->
  u_monthly_documents_processed user <= u_monthly_limit user ->
  let p := u_monthly_documents_processed user in
  let L := u_monthly_limit user in
  let r := track_all self times user_id in
  (forall (i : nat), (i < length times)%nat ->
     r.1 !! i = Some (bool_decide (p + Z.of_nat i < L)))
  /\ exists user',
       dict_get user_id (users r.2) = Some user'
       /\ u_monthly_limit user' = L
       /\ u_monthly_documents_processed user'
          = Z.min (p + Z.of_nat (length times)) L
       /\ u_total_documents_processed user' - u_total_documents_processed user
          = u_monthly_documents_processed user' - p.
Proof.
  induction times as [|now times IH]; intros self user_id user Huser Hle;
    cbv zeta.
  - cbn. split; [intros i Hi; lia|].
    exists user. repeat split; auto; lia.
  - cbn [track_all]. unfold track_document_processing. rewrite Huser.
    destruct (u_monthly_limit user <=? u_monthly_documents_processed user)
      eqn:Hfull.
    + (* at the limit: refused, nothing counted *)
      apply Z.leb_le in Hfull.
      set (s1 := _log_security_event self _ _ _).
      assert (Huser1 : dict_get user_id (users s1) = Some user) by exact Huser.
      specialize (IH s1 user_id user Huser1 Hle). cbv zeta in IH.
      destruct (track_all s1 times user_id) as [oks s2].
      destruct IH as [Hanswers (user' & Hu' & HL & Hp & Ht)].
      cbn [fst snd] in *. split.
      * intros [|i] Hi; cbn.
        -- f_equal. symmetry. apply bool_decide_eq_false. lia.
        -- cbn in Hi. rewrite Hanswers by lia. f_equal.
           rewrite !bool_decide_eq_false_2 by lia. reflexivity.
      * exists user'. repeat split; auto.
        rewrite Hp. cbn [length]. lia.
    + apply Z.leb_gt in Hfull.
      set (user1 := mkUser _ _ _ _ _ _ _ _ _ _ _ _ _ _).
      set (s1 := with_users _ self).
      assert (Huser1 : dict_get user_id (users s1) = Some user1).
      { subst s1. cbn. apply dict_get_set_eq. }
      assert (Hle1 : u_monthly_documents_processed user1
                     <= u_monthly_limit user1) by (cbn; lia).
      specialize (IH s1 user_id user1 Huser1 Hle1). cbv zeta in IH.
      destruct (track_all s1 times user_id) as [oks s2].
      destruct IH as [Hanswers (user' & Hu' & HL & Hp & Ht)].
      cbn [fst snd] in *. cbn in Hanswers, HL, Hp, Ht. split.
      * intros [|i] Hi; cbn.
        -- f_equal. symmetry. apply bool_decide_eq_true. lia.
        -- cbn in Hi. rewrite Hanswers by lia. f_equal.
           apply bool_decide_ext. lia.
      * exists user'. repeat split; auto.
        -- rewrite Hp. cbn [length]. lia.
        -- lia.
Qed.

Lemma monthly_quota_is_enforced_witness :
  (track_all
     (with_users
        (dict_set "u1"
           (mkUser "u1" "trial@example.com" "Trial User" None UserRole.TRIAL
                   PlanType.FREE true 0 0 None false 9 41 10) [])
        empty)
     [100; 200; 300] "u1").1
  !! 1%nat
  = Some false.
Proof.
  apply (proj1 (monthly_quota_is_enforced [100; 200; 300]
                  (with_users
                     (dict_set "u1"
                        (mkUser "u1" "trial@example.com" "Trial User" None
                                UserRole.TRIAL PlanType.FREE true 0 0 None
                                false 9 41 10) [])
                     empty)
                  "u1"
                  (mkUser "u1" "trial@example.com" "Trial User" None
                          UserRole.TRIAL PlanType.FREE true 0 0 None false
                          9 41 10)
                  eq_refl ltac:(cbn; lia))
           1%nat).
  cbn. lia.
Defined.

End Quotas.

(** ** The hourly quota of an API key *)

Section KeyQuota.
Import AuthModels AuthService Accounts AuthRoutes.
Import RateGovernor Governor.

Lemma governor_consume self now identifier :
  governor (AuthService.consume_rate_limit self now identifier)
  = RateGovernor.consume_rate_limit (governor self) now identifier.
Proof. reflexivity. Qed.

Lemma service_check self now identifier limit :
  let r := AuthService.check_rate_limit self now identifier limit in
  r.1 = (RateGovernor.check_rate_limit (governor self) now identifier limit).1
  /\ users r.2 = users self /\ api_keys r.2 = api_keys self
  /\ same_buckets (governor r.2) (governor self).
Proof.
  cbv zeta. unfold AuthService.check_rate_limit.
  pose proof (check_rate_limit_buckets (governor self) now identifier limit)
    as Hsame.
  fold (governor self).
  destruct (RateGovernor.check_rate_limit (governor self) now identifier limit)
    as [info g].
  cbn [fst snd users api_keys]. repeat split. exact Hsame.
Qed.

Lemma count_current_bucket g now identifier :
  count (current_bucket g now identifier)
  = consumed g identifier (hour_key now).
Proof.
  unfold current_bucket, consumed.
  now destruct (bucket g identifier (hour_key now)).
Qed.

Lemma reset_current_bucket g now identifier :
  well_kept g -> reset_time (current_bucket g now identifier) = next_hour now.
Proof.
  intros Hkept. unfold current_bucket.
  destruct (bucket g identifier (hour_key now)) as [b|] eqn:Hb; cbn.
  - now destruct (Hkept _ _ _ Hb).
  - reflexivity.
Qed.

Lemma retry_after_header_range now :
  1 <= retry_after_or_3600 (Some (int_total_seconds (next_hour now - now)))
    <= 3600.
Proof.
  pose proof (seconds_to_next_hour now) as Hr. unfold retry_after_or_3600.
  destruct (int_total_seconds (next_hour now - now) =? 0) eqn:E.
  - lia.
  - apply Z.eqb_neq in E. lia.
Qed.

(** One request with a usable key. *)
Lemma request_with_usable_key hash timestamp self env api_key key_id limit
      user :
  api_key <> "" ->
  key_usable hash self api_key key_id limit user ->
  well_kept (governor self) ->
  hour_key (now_consume env) = hour_key (now_check env) ->
  let identifier := "api_key:" +:+ key_id in
  let hour := hour_key (now_check env) in
  let c := consumed (governor self) identifier hour in
  let r := get_current_user_from_api_key hash timestamp self env
             (Some api_key) None in
  key_usable hash r.2 api_key key_id limit user
  /\ well_kept (governor r.2)
  /\ users r.2 = users self
  /\ if bool_decide (c < limit)
     then r.1 = inr user
          /\ consumed (governor r.2) identifier hour = c + 1
     else consumed (governor r.2) identifier hour = c
          /\ exists h,
               r.1 = inl (mkHTTPException 429 "Rate limit exceeded" (Some h))
               /\ x_ratelimit_remaining h = 0
               /\ x_ratelimit_limit h = limit
               /\ 1 <= retry_after_header h <= 3600.
Proof.
  intros Hkey [(record & Hrecord & Hid & Hlimit & Hactive & Hexp & Huser)
                 Huactive] Hkept Hhour.
  cbv zeta. unfold get_current_user_from_api_key.
  destruct api_key as [|a k]; [contradiction|].
  cbn [presented_key]. unfold verify_api_key.
  rewrite Hrecord, Hactive, Hexp. cbn [negb].
  set (updated := mkAPIKey _ _ _ _ _ _ _ _ _ _ _ _).
  set (s1 := with_api_keys _ self).
  cbn [k_user_id k_id k_rate_limit_per_hour updated].
  change (users s1) with (users self). rewrite Huser, Huactive. cbn [negb].
  rewrite Hid, Hlimit.
  pose proof (service_check s1 (now_check env) ("api_key:" +:+ key_id) limit)
    as Hcheck.
  cbv zeta in Hcheck.
  destruct (AuthService.check_rate_limit s1 (now_check env)
              ("api_key:" +:+ key_id) limit) as [info s2].
  cbn [fst snd] in Hcheck. destruct Hcheck as (Hinfo & Hu2 & Hk2 & Hsame).
  change (governor s1) with (governor self) in Hinfo, Hsame.
  rewrite check_rate_limit_info in Hinfo. cbv zeta in Hinfo.
  rewrite count_current_bucket, (reset_current_bucket _ _ _ Hkept) in Hinfo.
  set (c := consumed (governor self) ("api_key:" +:+ key_id)
                     (hour_key (now_check env))) in *.
  assert (Husable2 : forall s, users s = users self ->
                               api_keys s = api_keys s1 ->
                               key_usable hash s (String a k) key_id limit user).
  { intros s Hus Hks. split; [|exact Huactive].
    exists updated. rewrite Hks, Hus. subst s1. cbn [api_keys with_api_keys].
    rewrite dict_get_set_eq. subst updated. cbn. auto 10. }
  assert (Hkept2 : well_kept (governor s2)).
  { eapply well_kept_same; eauto. }
  assert (Hc2 : consumed (governor s2) ("api_key:" +:+ key_id)
                         (hour_key (now_check env)) = c).
  { unfold consumed. now rewrite Hsame. }
  subst info. cbn [requests_remaining requests_limit retry_after
                   info_reset_time].
  destruct (bool_decide (c < limit)) eqn:Hroom.
  - apply bool_decide_eq_true in Hroom.
    destruct (Z.max 0 (limit - c) <=? 0) eqn:Hzero;
      [apply Z.leb_le in Hzero; lia|].
    cbn [fst snd]. rewrite governor_consume.
    split; [apply Husable2; [exact Hu2 | exact Hk2]|].
    split; [now apply well_kept_consume|].
    split; [exact Hu2|]. split; [reflexivity|].
    unfold consumed. rewrite bucket_consume, Hhour.
    rewrite decide_True by done. cbn.
    rewrite count_current_bucket, Hhour. exact (f_equal (fun x => x + 1) Hc2).
  - apply bool_decide_eq_false in Hroom.
    destruct (Z.max 0 (limit - c) <=? 0) eqn:Hzero;
      [|apply Z.leb_gt in Hzero; lia].
    cbn [fst snd].
    split; [apply Husable2; [exact Hu2 | exact Hk2]|].
    split; [exact Hkept2|]. split; [exact Hu2|]. split; [exact Hc2|].
    eexists. split; [reflexivity|].
    cbn [x_ratelimit_remaining x_ratelimit_limit retry_after_header].
    split; [lia|]. split; [reflexivity|].
    replace (Z.max 0 (limit - c)) with 0 by lia. cbn [Z.eqb].
    apply retry_after_header_range.
Qed.

(** X26: The hourly quota of an API key is enforced: of the requests a
    client makes within one hour with a usable key whose bucket holds
    [c] requests, the i-th is let through (the dependency returns the
    user) exactly when [c + i < rate_limit_per_hour]; every other one is
    answered 429 with [X-RateLimit-Remaining] 0 and a [Retry-After]
    between 1 and 3600 seconds. Refused requests are not counted: the
    bucket ends at [min(c + n, limit)], or stays at [c] when it already
    was at or above the limit. *)
Theorem api_key_quota_is_enforced hash timestamp api_key key_id limit user
        hour requests : forall self,
  api_key <> "" ->
  key_usable hash self api_key key_id limit user ->
  well_kept (governor self) ->
  Forall (fun env => hour_key (now_check env) = hour
                     /\ hour_key (now_consume env) = hour) requests ->
  let identifier := "api_key:" +:+ key_id in
  let c := consumed (governor self) identifier hour in
  let r := serve hash timestamp self api_key requests in
  (forall (i : nat), (i < length requests)%nat ->
     exists resp,
       r.1 !! i = Some resp
       /\ if bool_decide (c + Z.of_nat i < limit)
          then resp = inr user
          else exists h,
                 resp = inl (mkHTTPException 429 "Rate limit exceeded"
                                             (Some h))
                 /\ x_ratelimit_remaining h = 0
                 /\ x_ratelimit_limit h = limit
                 /\ 1 <= retry_after_header h <= 3600)
  /\ consumed (governor r.2) identifier hour
     = Z.max c (Z.min (c + Z.of_nat (length requests)) limit).
Proof.
  induction requests as [|env requests IH];
    intros self Hkey Husable Hkept Hhours; cbv zeta.
  - cbn. split; [intros i Hi; lia | lia].
  - apply List.Forall_cons_iff in Hhours as [[Hcheck Hconsume] Hhours].
    pose proof (request_with_usable_key hash timestamp self env api_key
                  key_id limit user Hkey Husable Hkept
                  ltac:(congruence)) as Hstep.
    cbv zeta in Hstep. rewrite Hcheck in Hstep.
    cbn [serve].
    destruct (get_current_user_from_api_key hash timestamp self env
                (Some api_key) None) as [resp s1].
    cbn [fst snd] in Hstep.
    destruct Hstep as (Husable1 & Hkept1 & _ & Hresp).
    specialize (IH s1 Hkey Husable1 Hkept1 Hhours). cbv zeta in IH.
    destruct (serve hash timestamp s1 api_key requests) as [resps s2].
    cbn [fst snd] in IH |- *. destruct IH as [Hanswers Hfinal].
    set (c := consumed (governor self) ("api_key:" +:+ key_id) hour) in *.
    destruct (bool_decide (c < limit)) eqn:Hroom.
    + apply bool_decide_eq_true in Hroom. destruct Hresp as [-> Hc1].
      rewrite Hc1 in Hanswers, Hfinal. split.
      * intros [|i] Hi.
        -- exists (inr user). split; [reflexivity|].
           rewrite bool_decide_eq_true_2 by lia. reflexivity.
        -- cbn in Hi. destruct (Hanswers i ltac:(lia)) as (r & Hr & Hshape).
           exists r. split; [exact Hr|].
           replace (c + Z.of_nat (S i)) with (c + 1 + Z.of_nat i) by lia.
           exact Hshape.
      * rewrite Hfinal. cbn [length]. lia.
    + apply bool_decide_eq_false in Hroom.
      destruct Hresp as [Hc1 (h & -> & Hh)].
      rewrite Hc1 in Hanswers, Hfinal. split.
      * intros [|i] Hi.
        -- eexists. split; [reflexivity|].
           rewrite bool_decide_eq_false_2 by lia. eauto.
        -- cbn in Hi. destruct (Hanswers i ltac:(lia)) as (r & Hr & Hshape).
           exists r. split; [exact Hr|].
           rewrite bool_decide_eq_false_2 in Hshape |- * by lia.
           exact Hshape.
      * rewrite Hfinal. cbn [length]. lia.
Qed.

Lemma api_key_quota_is_enforced_witness :
  exists h,
    (serve sample_hash (fun t => t / 1000000) metered_accounts metered_key
           three_requests).1 !! 2%nat
    = Some (inl (mkHTTPException 429 "Rate limit exceeded" (Some h)))
    /\ x_ratelimit_remaining h = 0
    /\ 1 <= retry_after_header h <= 3600.
Proof.
  destruct (proj1 (api_key_quota_is_enforced sample_hash
                     (fun t => t / 1000000) metered_key
                     "7d0c6a52-0000-4000-8000-00000000000e" 2 sample_user
                     472222 three_requests metered_accounts
                     ltac:(discriminate)
                     ltac:(split; [eexists; vm_compute; repeat split
                                  | reflexivity])
                     ltac:(intros i hour b H; vm_compute in H; discriminate)
                     ltac:(repeat constructor))
                  2%nat ltac:(cbn; lia))
    as (resp & Hresp & h & -> & Hremaining & _ & Hretry).
  exists h. auto.
Defined.

End KeyQuota.

(** ** The upload and conversion routes *)

Section Routes.
Import FileManager ProcessingRoutes ConversionRoutes Uploads.

(** X27: The page estimate always lies within 1..1000, whatever the file:
    it is 1 when the file cannot be read or is smaller than 100 KB, one
    page per 100 KB (rounded down) from there on, and capped at 1000
    from 102 400 000 bytes; a larger file never gets a smaller
    estimate. *)
Theorem estimate_page_count_bounds disk path :
  1 <= estimate_page_count disk path <= 1000
  /\ (disk !! path_str path = None -> estimate_page_count disk path = 1)
  /\ (forall content,
        disk !! path_str path = Some content ->
        let size := Z.of_nat (length content) in
        (size < 102400 -> estimate_page_count disk path = 1)
        /\ (102400 <= size < 102400000 ->
            estimate_page_count disk path = size / 102400)
        /\ (102400000 <= size -> estimate_page_count disk path = 1000))
  /\ (forall disk' path' content content',
        disk !! path_str path = Some content ->
        disk' !! path_str path' = Some content' ->
        (length content <= length content')%nat ->
        estimate_page_count disk path <= estimate_page_count disk' path').
Proof.
  unfold estimate_page_count.
  change (100 * 1024) with 102400.
  split; [|split; [|split]].
  - destruct (disk !! path_str path); lia.
  - intros ->. reflexivity.
  - intros content ->. cbv zeta.
    pose proof (Z.div_pos (Z.of_nat (length content)) 102400
                  ltac:(lia) ltac:(lia)).
    repeat split; intros Hsize.
    + rewrite Z.div_small by lia. lia.
    + assert (1 <= Z.of_nat (length content) / 102400)
        by (apply Z.div_le_lower_bound; lia).
      assert (Z.of_nat (length content) / 102400 < 1000)
        by (apply Z.div_lt_upper_bound; lia).
      lia.
    + assert (1000 <= Z.of_nat (length content) / 102400)
        by (apply Z.div_le_lower_bound; lia).
      lia.
  - intros disk' path' content content' -> -> Hle.
    assert (Z.of_nat (length content) / 102400
            <= Z.of_nat (length content') / 102400)
      by (apply Z.div_le_mono; lia).
    lia.
Qed.

(** X28: An upload is accepted exactly when the file name ends in ".pdf" or
    ".docx" (in any casing), the content is at most 100 MB and the file
    can be written. An accepted upload is saved, and a QUEUED job for
    the saved file is stored and scheduled under the id returned, with
    the size of the content as [file_size_bytes] and a page count
    within 1..1000 in its options. A refused upload (400 for the name,
    413 for the size, in this order, 500 when writing fails) leaves the
    job registry exactly as it was, and a 400 or 413 writes no file. *)
Theorem upload_outcome md5 final dir disk svc env filename content form :
  let r := upload_and_process md5 final dir disk svc env filename content
                              form in
  let lowered := LibreOffice.lower filename in
  let named := endswith lowered ".pdf" || endswith lowered ".docx" in
  let size := Z.of_nat (length content) in
  match r.1.1 with
  | Uploaded job_id endpoint =>
      named = true /\ size <= 104857600
      /\ write_error (save_env env) = None
      /\ job_id = job_uuid4 env
      /\ endpoint = "/api/processing/status/" +:+ job_id
      /\ (job_id ∈ PdfProcessor.tasks r.2)
      /\ exists job,
           PdfProcessor.jobs r.2 !! job_id = Some job
           /\ Models.status job = Models.QUEUED
           /\ Models.file_size_bytes job = size
           /\ r.1.2 !! Models.file_path job = Some content
           /\ Models.operation (Models.options job) = form_operation form
           /\ exists pages,
                Models.page_count (Models.options job) = Some pages
                /\ 1 <= pages <= 1000
                /\ pages = Z.min (Z.max 1 (size / 102400)) 1000
  | HTTPError code detail =>
      r.2 = svc
      /\ code = (if negb named then 400
                 else if 104857600 <? size then 413 else 500)
      /\ (code <> 500 -> r.1.2 = disk)
      /\ (code = 500 -> is_Some (write_error (save_env env)))
  end.
Proof.
  cbv zeta. unfold upload_and_process. unfold Disk in *.
  destruct (endswith _ ".pdf" || endswith _ ".docx"); cbn [negb];
    [|cbn; repeat split; discriminate].
  change (100 * 1024 * 1024) with 104857600.
  destruct (104857600 <? Z.of_nat (length content)) eqn:Hsize;
    [cbn; repeat split; discriminate|].
  apply Z.ltb_ge in Hsize.
  unfold save_upload. destruct (write_error (save_env env)) as [e|];
    [cbn; repeat split; eauto|].
  cbn [fst snd]. unfold PdfProcessor.create_job.
  cbn [fst snd PdfProcessor.tasks PdfProcessor.jobs PdfProcessor.uuid4
       PdfProcessor.path_str].
  repeat split; try reflexivity; try assumption.
  - apply elem_of_app. right. apply list_elem_of_here.
  - eexists. rewrite lookup_insert_eq. split; [reflexivity|].
    unfold PdfProcessor.new_job.
    cbn [Models.status Models.file_size_bytes Models.file_path Models.options
         Models.operation Models.page_count PdfProcessor.stat_size
         PdfProcessor.path_str].
    unfold Disk. rewrite !lookup_insert_eq. cbn [fmap option_fmap option_map].
    repeat split.
    eexists. split; [reflexivity|].
    unfold estimate_page_count, Disk. cbn [PdfProcessor.path_str].
    rewrite lookup_insert_eq. change (100 * 1024) with 102400.
    split; [lia | reflexivity].
Qed.

Lemma upload_outcome_witness :
  let r := upload_and_process sample_md5 sample_final_component
             "/tmp/pdf_saas_uploads" ∅ Samples.sample_service
             sample_upload_env "report.PDF" sample_content sample_form in
  exists job,
    PdfProcessor.jobs r.2 !! "3f2b8c1e-0000-4000-8000-000000000009" = Some job
    /\ Models.file_size_bytes job = 6
    /\ Models.page_count (Models.options job) = Some 1.
Proof.
  intros r.
  pose proof (upload_outcome sample_md5 sample_final_component
                "/tmp/pdf_saas_uploads" ∅ Samples.sample_service
                sample_upload_env "report.PDF" sample_content sample_form)
    as H.
  cbv zeta in H. fold r in H.
  change r.1.1 with (Uploaded "3f2b8c1e-0000-4000-8000-000000000009"
                       "/api/processing/status/3f2b8c1e-0000-4000-8000-000000000009")
    in H.
  destruct H as (_ & _ & _ & _ & _ & _ & job & Hjob & _ & Hsize & _ & _
                 & pages & Hpages & _ & ->).
  exists job. auto.
Defined.

(** X29: The table entry of a conversion job follows the conversion. Once
    the background task starts, the entry shows "processing" with
    progress 10. When [convert_pdf_to_ppt] returns (and the entry is
    still in the table), a success makes it "completed" with progress
    100 and the path, size and performance flag of the file delivered
    at [<temp_dir>/converted_<job_id>.pptx]; a failure makes it "failed"
    with the error reported, which starts with "PDF to PPT conversion
    failed: ", and leaves progress and output file as they were. No
    other entry changes. *)
Theorem conversion_entry_outcome temp w pdf job_id (jobs : Jobs) entry :
  jobs !! job_id = Some entry ->
  (exists jobs1 started,
     begin_conversion jobs job_id = inr jobs1
     /\ jobs1 !! job_id = Some started
     /\ e_status started = "processing" /\ e_progress started = 10
     /\ (forall k, k <> job_id -> jobs1 !! k = jobs !! k))
  /\ let run := LibreOffice.convert_pdf_to_ppt temp w pdf job_id in
     exists jobs2 final,
       record_conversion jobs job_id (LibreOffice.returned run) = inr jobs2
       /\ jobs2 !! job_id = Some final
       /\ (forall k, k <> job_id -> jobs2 !! k = jobs !! k)
       /\ e_filename final = e_filename entry
       /\ if LibreOffice.is_success (LibreOffice.returned run)
          then e_status final = "completed" /\ e_progress final = 100
               /\ e_output_file final
                  = Some (temp +:+ "/converted_" +:+ job_id +:+ ".pptx")
               /\ (LibreOffice.fname <$> LibreOffice.delivered run)
                  = e_output_file final
               /\ (LibreOffice.fsize <$> LibreOffice.delivered run)
                  = e_output_size_bytes final
               /\ e_within_performance_target final
                  = Some (LibreOffice.conversion_time w <=? 6000)
               /\ e_error final = e_error entry
          else e_status final = "failed"
               /\ e_progress final = e_progress entry
               /\ e_output_file final = e_output_file entry
               /\ LibreOffice.delivered run = None
               /\ exists msg,
                    e_error final
                    = Some ("PDF to PPT conversion failed: " +:+ msg).
Proof.
  intros Hentry. unfold Jobs in *. split.
  - unfold begin_conversion, Jobs. rewrite Hentry.
    eexists. eexists. split; [reflexivity|].
    rewrite lookup_insert_eq. split; [reflexivity|].
    split; [reflexivity|]. split; [reflexivity|].
    intros k Hk. now rewrite lookup_insert_ne.
  - cbv zeta.
    pose proof (convert_pdf_to_ppt_report temp w pdf job_id) as [Hok Hfail].
    cbv zeta in Hok, Hfail. unfold record_conversion, Jobs. rewrite Hentry.
    destruct (LibreOffice.is_success _) eqn:Hsuccess.
    + destruct (Hok eq_refl) as (_ & _ & _ & f & Hf & Hname & Hreturned).
      rewrite Hreturned, Hf. cbn [fmap option_fmap option_map].
      rewrite !Hname.
      eexists. eexists. split; [reflexivity|].
      rewrite lookup_insert_eq. split; [reflexivity|].
      split; [intros k Hk; now rewrite lookup_insert_ne|].
      repeat split.
    + destruct (Hfail eq_refl) as (Hnone & msg & Hreturned).
      rewrite Hreturned, Hnone.
      eexists. eexists. split; [reflexivity|].
      rewrite lookup_insert_eq. split; [reflexivity|].
      split; [intros k Hk; now rewrite lookup_insert_ne|].
      repeat split. eauto.
Qed.

Lemma conversion_entry_outcome_witness :
  exists jobs2 final,
    record_conversion sample_jobs "c1"
      (LibreOffice.returned
         (LibreOffice.convert_pdf_to_ppt "/tmp/libreoffice_processor"
            Samples.world_nonzero_unsupported Samples.sample_pdf "c1"))
    = inr jobs2
    /\ jobs2 !! "c1" = Some final
    /\ e_status final = "failed" /\ e_progress final = 0.
Proof.
  destruct (proj2 (conversion_entry_outcome "/tmp/libreoffice_processor"
                     Samples.world_nonzero_unsupported Samples.sample_pdf
                     "c1" sample_jobs
                     (new_entry "slides.pdf" 52000
                        "9e107d9d372bb6826bd81d3542a419d6" 1700000000)
                     ltac:(vm_compute; reflexivity)))
    as (jobs2 & final & Hrecord & Hfinal & _ & _ & Hshape).
  exists jobs2, final. split; [exact Hrecord|]. split; [exact Hfinal|].
  destruct Hshape as (Hstatus & Hprogress & _). auto.
Defined.

(** X30: Cleaning a conversion job up forgets it: the entry is deleted and
    no other one changes; from then on the status, the download and a
    second cleanup of that id all answer 404 "Job not found" (the
    cleanup is not idempotent); and a background task still working on
    the job raises [KeyError] when it comes to record its result,
    writing nothing. *)
Theorem cleanup_forgets_job tempdir exists_ (jobs : Jobs) job_id entry :
  jobs !! job_id = Some entry ->
  exists removed jobs',
    cleanup_conversion_job tempdir exists_ jobs job_id = inr (removed, jobs')
    /\ jobs' !! job_id = None
    /\ (forall k, k <> job_id -> jobs' !! k = jobs !! k)
    /\ (forall path, path ∈ removed -> exists_ path = true)
    /\ get_conversion_status jobs' job_id
       = inl (HTTPException 404 "Job not found")
    /\ download_converted_file exists_ jobs' job_id
       = inl (HTTPException 404 "Job not found")
    /\ cleanup_conversion_job tempdir exists_ jobs' job_id
       = inl (HTTPException 404 "Job not found")
    /\ begin_conversion jobs' job_id = inl (KeyError job_id)
    /\ (forall result,
          record_conversion jobs' job_id result = inl (KeyError job_id)).
Proof.
  intros Hentry. unfold Jobs in *.
  unfold cleanup_conversion_job at 1. unfold Jobs. rewrite Hentry.
  eexists. eexists. split; [reflexivity|].
  assert (Hgone : delete job_id jobs !! job_id = None)
    by apply lookup_delete_eq.
  split; [exact Hgone|].
  split; [intros k Hk; now rewrite lookup_delete_ne|].
  split.
  { intros path Hin. apply elem_of_app in Hin as [Hin|Hin].
    - destruct (exists_ (tempdir +:+ "/pdf_uploads/upload_" +:+ job_id
                         +:+ ".pdf")) eqn:E.
      + apply list_elem_of_singleton in Hin. now subst.
      + apply elem_of_nil in Hin. contradiction.
    - destruct (e_output_file entry) as [[|c rest]|];
        try (apply elem_of_nil in Hin; contradiction).
      destruct (exists_ (String c rest)) eqn:E.
      + apply list_elem_of_singleton in Hin. now subst.
      + apply elem_of_nil in Hin. contradiction. }
  unfold get_conversion_status, download_converted_file,
    cleanup_conversion_job, begin_conversion, record_conversion, Jobs.
  rewrite Hgone. repeat split.
Qed.

Lemma cleanup_forgets_job_witness :
  exists removed jobs',
    cleanup_conversion_job "/tmp" (fun _ => false) sample_jobs "c1"
    = inr (removed, jobs')
    /\ jobs' !! "c1" = None.
Proof.
  destruct (cleanup_forgets_job "/tmp" (fun _ => false) sample_jobs "c1"
              (new_entry "slides.pdf" 52000
                 "9e107d9d372bb6826bd81d3542a419d6" 1700000000)
              ltac:(vm_compute; reflexivity))
    as (removed & jobs' & Hclean & Hgone & _).
  exists removed, jobs'. auto.
Defined.

End Routes.
